(** * Webhook signature validation of [app.py]

    A shallow embedding of the two signature gates of [app.py] (the inline
    gate of the [/twiml] route and the [validate_twilio_request] decorator)
    together with the pieces of the Python runtime they call: text as
    sequences of code points, UTF-8, [re.sub], [str.lstrip], [str.strip],
    [sorted], [hashlib.sha1], [hmac] and [base64.b64encode]. *)

From Stdlib Require Import ZArith List Lia Bool.
From Stdlib Require String Ascii.
Import String.StringSyntax.
Delimit Scope string_scope with string.
From Stdlib Require Import Permutation Sorted.
Import ListNotations.
Open Scope Z_scope.

(** ** Text and bytes *)

(** A Python [str] is a sequence of Unicode code points, a [bytes] object a
    sequence of integers in [0, 256). *)
Definition str := list Z.
Definition bytes := list Z.

Definition is_byte (b : Z) : Prop := 0 <= b < 256.

(** A string literal of the source, as its code points. *)
Definition lit (s : String.string) : str :=
  map (fun a => Z.of_N (Ascii.N_of_ascii a)) (String.list_ascii_of_string s).
Arguments lit s%_string.

Fixpoint str_eqb (a b : str) : bool :=
  match a, b with
  | [], [] => true
  | x :: a', y :: b' => (x =? y) && str_eqb a' b'
  | _, _ => false
  end.

(** [a < b] on [str]: code point by code point, a proper prefix is smaller. *)
Fixpoint str_ltb (a b : str) : bool :=
  match a, b with
  | _, [] => false
  | [], _ :: _ => true
  | x :: a', y :: b' => (x <? y) || ((x =? y) && str_ltb a' b')
  end.

(** [s.startswith(p)], returning what follows the prefix. *)
Fixpoint strip_prefix (p s : str) : option str :=
  match p, s with
  | [], _ => Some s
  | _ :: _, [] => None
  | x :: p', y :: s' => if x =? y then strip_prefix p' s' else None
  end.

(** ** UTF-8 *)

Module UTF8.

(** One code point; surrogates make [str.encode] raise. *)
Definition encode_char (c : Z) : option bytes :=
  if c <? 0 then None
  else if c <? 128 then Some [c]
  else if c <? 2048 then Some [192 + c / 64; 128 + c mod 64]
  else if (55296 <=? c) && (c <=? 57343) then None
  else if c <? 65536 then
    Some [224 + c / 4096; 128 + (c / 64) mod 64; 128 + c mod 64]
  else if c <? 1114112 then
    Some [240 + c / 262144; 128 + (c / 4096) mod 64;
          128 + (c / 64) mod 64; 128 + c mod 64]
  else None.

(** [s.encode('utf-8')]; [None] stands for [UnicodeEncodeError]. *)
Fixpoint encode (s : str) : option bytes :=
  match s with
  | [] => Some []
  | c :: s' =>
      match encode_char c, encode s' with
      | Some b, Some bs => Some (b ++ bs)
      | _, _ => None
      end
  end.

Definition cont (b : Z) : bool := (128 <=? b) && (b <=? 191).

(** [b.decode('utf-8')], strict: overlong forms, surrogates and values above
    U+10FFFF are refused; [None] stands for [UnicodeDecodeError]. *)
Fixpoint decode (bs : bytes) : option str :=
  match bs with
  | [] => Some []
  | b0 :: r0 =>
      if (0 <=? b0) && (b0 <? 128) then option_map (cons b0) (decode r0)
      else if (194 <=? b0) && (b0 <=? 223) then
        match r0 with
        | b1 :: r1 =>
            if cont b1
            then option_map (cons ((b0 - 192) * 64 + (b1 - 128))) (decode r1)
            else None
        | _ => None
        end
      else if (224 <=? b0) && (b0 <=? 239) then
        match r0 with
        | b1 :: b2 :: r2 =>
            let lo := if b0 =? 224 then 160 else 128 in
            let hi := if b0 =? 237 then 159 else 191 in
            if (lo <=? b1) && (b1 <=? hi) && cont b2
            then option_map
                   (cons ((b0 - 224) * 4096 + (b1 - 128) * 64 + (b2 - 128)))
                   (decode r2)
            else None
        | _ => None
        end
      else if (240 <=? b0) && (b0 <=? 244) then
        match r0 with
        | b1 :: b2 :: b3 :: r3 =>
            let lo := if b0 =? 240 then 144 else 128 in
            let hi := if b0 =? 244 then 143 else 191 in
            if (lo <=? b1) && (b1 <=? hi) && cont b2 && cont b3
            then option_map
                   (cons ((b0 - 240) * 262144 + (b1 - 128) * 4096
                          + (b2 - 128) * 64 + (b3 - 128)))
                   (decode r3)
            else None
        | _ => None
        end
      else None
  end.

End UTF8.

(** ** SHA-1 (FIPS 180-4), as [hashlib.sha1] computes it *)

Module SHA1.

Definition w32 (x : Z) : Z := x mod 2 ^ 32.

Definition rotl (n x : Z) : Z :=
  w32 (Z.lor (Z.shiftl x n) (Z.shiftr x (32 - n))).

Definition not32 (x : Z) : Z := Z.lxor x 4294967295.

(** Big-endian bytes of a 32-bit word. *)
Definition unpack32 (w : Z) : bytes :=
  [Z.land (Z.shiftr w 24) 255; Z.land (Z.shiftr w 16) 255;
   Z.land (Z.shiftr w 8) 255; Z.land w 255].

Definition unpack64 (w : Z) : bytes :=
  unpack32 (Z.shiftr w 32) ++ unpack32 w.

(** Message, the bit 1, zeros up to 56 modulo 64, the bit length on 8 bytes. *)
Definition pad (msg : bytes) : bytes :=
  let l := Z.of_nat (length msg) in
  msg ++ [128] ++ repeat 0 (Z.to_nat ((55 - l) mod 64)) ++ unpack64 (8 * l).

(** The sixteen big-endian words of a block, given at least 64 bytes. *)
Fixpoint words (n : nat) (bs : bytes) : list Z :=
  match n, bs with
  | S n', a :: b :: c :: d :: r =>
      (((a * 256 + b) * 256 + c) * 256 + d) :: words n' r
  | _, _ => []
  end.

(** Message schedule, latest word first: [W t] from [W (t-3)], [W (t-8)],
    [W (t-14)] and [W (t-16)]. *)
Fixpoint schedule (n : nat) (rw : list Z) : list Z :=
  match n with
  | O => rw
  | S n' =>
      let w := rotl 1 (Z.lxor (Z.lxor (nth 2 rw 0) (nth 7 rw 0))
                              (Z.lxor (nth 13 rw 0) (nth 15 rw 0))) in
      schedule n' (w :: rw)
  end.

Definition f (t : nat) (b c d : Z) : Z :=
  if (t <? 20)%nat then Z.lor (Z.land b c) (Z.land (not32 b) d)
  else if (t <? 40)%nat then Z.lxor (Z.lxor b c) d
  else if (t <? 60)%nat then
    Z.lor (Z.lor (Z.land b c) (Z.land b d)) (Z.land c d)
  else Z.lxor (Z.lxor b c) d.

Definition K (t : nat) : Z :=
  if (t <? 20)%nat then 1518500249
  else if (t <? 40)%nat then 1859775393
  else if (t <? 60)%nat then 2400959708
  else 3395469782.

Definition state : Type := Z * Z * Z * Z * Z.

Definition round (s : state) (tw : nat * Z) : state :=
  let '(a, b, c, d, e) := s in
  let '(t, w) := tw in
  (w32 (rotl 5 a + f t b c d + e + K t + w), a, rotl 30 b, c, d).

Definition compress (h : state) (block : bytes) : state :=
  let ws := rev (schedule 64 (rev (words 16 block))) in
  let '(a, b, c, d, e) :=
    fold_left round (combine (seq 0 80) ws) h in
  let '(h0, h1, h2, h3, h4) := h in
  (w32 (h0 + a), w32 (h1 + b), w32 (h2 + c), w32 (h3 + d), w32 (h4 + e)).

Fixpoint blocks (n : nat) (h : state) (bs : bytes) : state :=
  match n with
  | O => h
  | S n' => blocks n' (compress h (firstn 64 bs)) (skipn 64 bs)
  end.

Definition init : state :=
  (1732584193, 4023233417, 2562383102, 271733878, 3285377520).

Definition serialize (h : state) : bytes :=
  let '(h0, h1, h2, h3, h4) := h in
  unpack32 h0 ++ unpack32 h1 ++ unpack32 h2 ++ unpack32 h3 ++ unpack32 h4.

(** [hashlib.sha1(msg).digest()]. *)
Definition digest (msg : bytes) : bytes :=
  let p := pad msg in
  serialize (blocks (length p / 64) init p).

End SHA1.

(** ** HMAC (RFC 2104) over SHA-1, as [hmac.new(key, msg, sha1).digest()] *)

Module HMAC.

Definition block_size : nat := 64.

Definition block_key (key : bytes) : bytes :=
  let k := if (block_size <? length key)%nat then SHA1.digest key else key in
  k ++ repeat 0 (block_size - length k).

Definition digest (key msg : bytes) : bytes :=
  let k := block_key key in
  SHA1.digest (map (Z.lxor 92) k ++ SHA1.digest (map (Z.lxor 54) k ++ msg)).

End HMAC.

(** ** Base64 (RFC 4648, padded), as [base64.b64encode] *)

Module Base64.

Definition alphabet : str :=
  Eval cbv in
    lit "ABCDEFGHIJKLMNOPQRSTUVWXYZabcdefghijklmnopqrstuvwxyz0123456789+/".

Definition pad_char : Z := 61.

Definition enc (i : Z) : Z := nth (Z.to_nat i) alphabet pad_char.

Fixpoint b64encode (bs : bytes) : bytes :=
  match bs with
  | [] => []
  | [a] =>
      [enc (Z.shiftr a 2); enc (Z.shiftl (Z.land a 3) 4); pad_char; pad_char]
  | [a; b] =>
      [enc (Z.shiftr a 2);
       enc (Z.lor (Z.shiftl (Z.land a 3) 4) (Z.shiftr b 4));
       enc (Z.shiftl (Z.land b 15) 2); pad_char]
  | a :: b :: c :: r =>
      enc (Z.shiftr a 2)
      :: enc (Z.lor (Z.shiftl (Z.land a 3) 4) (Z.shiftr b 4))
      :: enc (Z.lor (Z.shiftl (Z.land b 15) 2) (Z.shiftr c 6))
      :: enc (Z.land c 63) :: b64encode r
  end.

End Base64.

(** ** The [str] methods and built-ins the gates call *)

(** [re.sub('http', 'https', s)]: every leftmost, non-overlapping occurrence
    of the literal pattern is replaced, and scanning resumes after it. *)
Fixpoint re_sub_http (s : str) : str :=
  match s with
  | [] => []
  | c :: r =>
      match s with
      | c0 :: c1 :: c2 :: c3 :: r4 =>
          if str_eqb [c0; c1; c2; c3] (lit "http")
          then lit "https" ++ re_sub_http r4
          else c :: re_sub_http r
      | _ => c :: re_sub_http r
      end
  end.

(** [s.lstrip(chars)]: [chars] is a set of characters, not a prefix. *)
Fixpoint lstrip (chars s : str) : str :=
  match s with
  | [] => []
  | c :: r => if existsb (Z.eqb c) chars then lstrip chars r else s
  end.

(** [str.isspace] on one code point. *)
Definition isspace (c : Z) : bool :=
  ((9 <=? c) && (c <=? 13)) || ((28 <=? c) && (c <=? 32))
  || (c =? 133) || (c =? 160) || (c =? 5760)
  || ((8192 <=? c) && (c <=? 8202))
  || (c =? 8232) || (c =? 8233) || (c =? 8239) || (c =? 8287)
  || (c =? 12288).

Fixpoint lstrip_space (s : str) : str :=
  match s with
  | [] => []
  | c :: r => if isspace c then lstrip_space r else s
  end.

(** [s.strip()]. *)
Definition strip (s : str) : str :=
  rev (lstrip_space (rev (lstrip_space s))).

(** The form of a request: the name/value pairs of the body in wire order
    (werkzeug's [MultiDict]). *)
Definition MultiDict := list (str * str).

(** [form.items()]: one pair per name, in order of first appearance, with the
    first value sent under that name. *)
Fixpoint items (form : MultiDict) : list (str * str) :=
  match form with
  | [] => []
  | (k, v) :: rest =>
      (k, v) :: filter (fun kv => negb (str_eqb k (fst kv))) (items rest)
  end.

(** [a < b] on pairs of [str]: the first differing component decides. *)
Definition tuple_ltb (a b : str * str) : bool :=
  str_ltb (fst a) (fst b)
  || (str_eqb (fst a) (fst b) && str_ltb (snd a) (snd b)).

Fixpoint insert (x : str * str) (l : list (str * str)) : list (str * str) :=
  match l with
  | [] => [x]
  | y :: l' => if tuple_ltb y x then y :: insert x l' else x :: l
  end.

(** [sorted(l)] on pairs: ascending, stable. *)
Fixpoint sorted (l : list (str * str)) : list (str * str) :=
  match l with
  | [] => []
  | x :: l' => insert x (sorted l')
  end.

(** ** Requests, responses and effects *)

Record Request := {
  url : str;                          (* request.url *)
  x_twilio_signature : option str;    (* the X-Twilio-Signature header, if sent *)
  form : MultiDict                    (* request.form *)
}.

Record response := {
  body : str;
  status : Z;
  mimetype : str
}.

(** A view returning [(body, status)]. *)
Definition tuple_response (b : str) (st : Z) : response :=
  {| body := b; status := st; mimetype := lit "text/html" |}.

(** [Response(body, mimetype=m)]. *)
Definition Response (b : str) (m : str) : response :=
  {| body := b; status := 200; mimetype := m |}.

Inductive pyexn :=
| KeyError | TypeError | AttributeError | UnicodeEncodeError | UnicodeDecodeError.

Inductive printed :=
| PStr (s : str)                      (* print(s) *)
| PBytes (b : bytes)                  (* print(b) *)
| PFmtBytes (prefix : str) (b : bytes) (* print(f"prefix{b}") *)
| PDict (d : list (str * str)).       (* print(d) for a dict d *)

(** What a view does besides answering. *)
Inductive event :=
| Print (p : printed)
| HmacNew (key msg : bytes)           (* hmac.new(key, msg, sha1) *)
| Validate (uri : str) (params : MultiDict) (signature : str)
                                      (* validator.validate(uri, params, signature) *)
| Handler.                            (* the call of the wrapped view f *)

(** A step of a view: it goes on with a value, returns a response early, or
    raises; the events so far are kept in all three cases. *)
Inductive result (A : Type) :=
| Val (a : A)
| Return (r : response)
| Raise (e : pyexn).
Arguments Val {A} a.
Arguments Return {A} r.
Arguments Raise {A} e.

Definition M (A : Type) : Type := list event * result A.

Definition ret {A} (a : A) : M A := ([], Val a).

Definition bind {A B} (m : M A) (k : A -> M B) : M B :=
  match m with
  | (t, Val a) => let '(t', r) := k a in (t ++ t', r)
  | (t, Return r) => (t, Return r)
  | (t, Raise e) => (t, Raise e)
  end.

Notation "x <- m ;; k" := (bind m (fun x => k))
  (at level 61, m at next level, right associativity).
Notation "m ;; k" := (bind m (fun _ => k))
  (at level 61, right associativity).

Definition emit (e : event) : M unit := ([e], Val tt).
Definition print (p : printed) : M unit := emit (Print p).
Definition return_ {A} (r : response) : M A := ([], Return r).
Definition raise {A} (e : pyexn) : M A := ([], Raise e).

(** [try: m except KeyError: h]. *)
Definition try_except_KeyError {A} (m : M A) (h : M A) : M A :=
  match m with
  | (t, Raise KeyError) => let '(t', r) := h in (t ++ t', r)
  | _ => m
  end.

(** [request.headers['X-Twilio-Signature']]. *)
Definition headers_getitem (request : Request) : M str :=
  match x_twilio_signature request with
  | Some s => ret s
  | None => raise KeyError
  end.

(** [bytes(token, 'UTF-8')]; the token is [None] when the variable is unset. *)
Definition bytes_utf8 (token : option str) : M bytes :=
  match token with
  | None => raise TypeError
  | Some s =>
      match UTF8.encode s with
      | Some b => ret b
      | None => raise UnicodeEncodeError
      end
  end.

Definition encode_utf8 (s : str) : M bytes :=
  match UTF8.encode s with
  | Some b => ret b
  | None => raise UnicodeEncodeError
  end.

Definition decode_utf8 (b : bytes) : M str :=
  match UTF8.decode b with
  | Some s => ret s
  | None => raise UnicodeDecodeError
  end.

(** What the server answers: the response of the view, or the exception it
    let escape. *)
Definition answer (m : M response) : response + pyexn :=
  match snd m with
  | Val r | Return r => inl r
  | Raise e => inr e
  end.

Definition trace {A} (m : M A) : list event := fst m.

(** ** The inline gate of the [/twiml] route *)

(** Steps 1 to 3: the URL with [http] replaced, then name and value of every
    field in sorted order. *)
Definition canonical_string (request : Request) : str :=
  fold_left (fun domain kv => domain ++ (fst kv ++ snd kv))
            (sorted (items (form request)))
            (re_sub_http (url request)).

(** [mac.__dict__] for the object [hmac.new] returns: the class [hmac.HMAC]
    declares [__slots__] (CPython 3.9 and later), its objects have no
    [__dict__], and reading the attribute raises. *)
Definition mac_dict : M (list (str * str)) := raise AttributeError.

(** Steps 4 and 5: sign, encode, decode and strip, with the prints between. *)
Definition sign (TWILIO_AUTH_TOKEN : option str) (domain : str) : M str :=
  key <- bytes_utf8 TWILIO_AUTH_TOKEN ;;
  msg <- encode_utf8 domain ;;
  emit (HmacNew key msg) ;;
  let mac_digest := HMAC.digest key msg in
  d <- mac_dict ;;
  print (PDict d) ;;
  print (PBytes mac_digest) ;;
  let computed := Base64.b64encode mac_digest in
  print (PFmtBytes (lit "computed value (base64 encoded): ") computed) ;;
  computed <- decode_utf8 computed ;;
  print (PStr (lit "computed value (utf-8 decoded): " ++ computed)) ;;
  let diy_signature := strip computed in
  print (PStr (lit "diy_signature value: " ++ diy_signature)) ;;
  ret diy_signature.

Definition twiml_response : str :=
  lit "<Response><Say>Huzzah! The Signature has been validated!</Say></Response>".

Definition twiml (TWILIO_AUTH_TOKEN : option str) (request : Request)
  : M response :=
  twil_sig <- try_except_KeyError
                (twil_sig <- headers_getitem request ;;
                 print (PStr (lit "X-Twilio-Signature: " ++ twil_sig)) ;;
                 ret twil_sig)
                (return_ (tuple_response
                   (lit "No X-Twilio-Signature. This request likely did not originate from Twilio.")
                   418)) ;;
  domain <- match form request with
            | _ :: _ => ret (canonical_string request)
            | [] => return_ (tuple_response (lit "Bad Request - no form params") 400)
            end ;;
  diy_signature <- sign TWILIO_AUTH_TOKEN domain ;;
  if negb (str_eqb diy_signature twil_sig)
  then return_ (tuple_response (lit "Signature does not match") 403)
  else return_ (Response twiml_response (lit "application/xml")).

(** ** The [validate_twilio_request] decorator *)

Section Decorator.

(** [RequestValidator(token).validate(uri, params, signature)] of the
    Twilio helper library, which is not part of the repository. *)
Variable validator_validate : str -> str -> MultiDict -> str -> bool.

(** The wrapped view. *)
Variable f : M response.

(** [RequestValidator(token)]: the constructor of the library keeps
    [token.encode("utf-8")], so it raises when the variable is unset
    ([None] has no [encode]) and when the token has no UTF-8 form; the
    validator it builds is known by its token. *)
Definition RequestValidator (token : option str) : M str :=
  match token with
  | None => raise AttributeError
  | Some s => encode_utf8 s ;; ret s
  end.

Definition decorated (TWILIO_AUTH_TOKEN : option str) (request : Request)
  : M response :=
  validator <- RequestValidator TWILIO_AUTH_TOKEN ;;
  let https_url := lit "https://" ++ lstrip (lit "http://") (url request) in
  let twilio_signature := x_twilio_signature request in
  let params := form request in
  match twilio_signature with
  | None | Some [] => return_ (tuple_response (lit "No signature") 500)
  | Some sig =>
      emit (Validate https_url params sig) ;;
      if negb (validator_validate validator https_url params sig)
      then return_ (tuple_response (lit "Incorrect signature") 403)
      else emit Handler ;; f
  end.

End Decorator.

(** ** Outcomes *)

Inductive ValidationOutcome :=
| Accepted
| RejectedNoSignatureHeader
| RejectedNoBody
| RejectedMismatch.


(** The reason a response rejects for, by its status: 418 (inline gate) and
    500 (decorator) for the missing signature, 400 for the missing body, 403
    for the mismatch. *)
Definition rejection (r : response) : option ValidationOutcome :=
  if (status r =? 418) || (status r =? 500) then Some RejectedNoSignatureHeader
  else if status r =? 400 then Some RejectedNoBody
  else if status r =? 403 then Some RejectedMismatch
  else None.

(** The outcome of the inline gate, read off its answer: accepted with the
    success document, else the rejection; [None] when an exception escaped. *)
Definition twiml_outcome (m : M response) : option ValidationOutcome :=
  match answer m with
  | inl r => if status r =? 200 then Some Accepted else rejection r
  | inr _ => None
  end.

Definition is_Handler (e : event) : bool :=
  match e with Handler => true | _ => false end.

Definition is_HmacNew (e : event) : bool :=
  match e with HmacNew _ _ => true | _ => false end.

Definition is_Validate (e : event) : bool :=
  match e with Validate _ _ _ => true | _ => false end.

(** The outcome of the decorator: accepted when the wrapped view was called,
    else the rejection it answered with. *)
Definition decorated_outcome (m : M response) : option ValidationOutcome :=
  if existsb is_Handler (trace m) then Some Accepted
  else match answer m with
       | inl r => rejection r
       | inr _ => None
       end.

(** ** Notions used to state the properties *)

(** Lower-case hexadecimal text of a digest, as the published vectors are
    printed. *)
Definition hex (bs : bytes) : str :=
  flat_map (fun b => [nth (Z.to_nat (b / 16)) (lit "0123456789abcdef") 0;
                      nth (Z.to_nat (b mod 16)) (lit "0123456789abcdef") 0]) bs.

(** The sixty-four characters of the alphabet and the padding sign. *)
Definition b64char (c : Z) : bool :=
  existsb (Z.eqb c) (Base64.pad_char :: Base64.alphabet).

(** The padded base64 text of the HMAC-SHA-1 digest. *)
Definition signature (key msg : bytes) : str :=
  Base64.b64encode (HMAC.digest key msg).

(** A Unicode scalar value: a code point that is not a surrogate. *)
Definition scalar (c : Z) : Prop :=
  0 <= c < 55296 \/ 57343 < c < 1114112.

(** Lexicographic order on [bytes], as Python compares them. *)
Definition bytes_ltb (a b : bytes) : bool := str_ltb a b.

(** [x] is not above [y]. *)
Definition tuple_le (x y : str * str) : Prop := tuple_ltb y x = false.

(** [form[k]]: the first value sent under the name. *)
Fixpoint getitem (form : MultiDict) (k : str) : option str :=
  match form with
  | [] => None
  | (k', v) :: rest => if str_eqb k' k then Some v else getitem rest k
  end.

(** Does the literal [http] occur in the text? *)
Fixpoint contains_http (s : str) : bool :=
  match s with
  | [] => false
  | _ :: r =>
      match strip_prefix (lit "http") s with
      | Some _ => true
      | None => contains_http r
      end
  end.

(** ** The decision of the decorator *)

(** The decorator, once its validator is built: a missing or empty header,
    then the verdict of the library on the rebuilt URL; no rule on the
    body. *)
Definition decorator_decision
  (validator_validate : str -> str -> MultiDict -> str -> bool)
  (key : str) (request : Request) : ValidationOutcome :=
  match x_twilio_signature request with
  | None | Some [] => RejectedNoSignatureHeader
  | Some claimed =>
      if validator_validate key
           (lit "https://" ++ lstrip (lit "http://") (url request))
           (form request) claimed
      then Accepted else RejectedMismatch
  end.

(** ** Sample requests *)

Definition secret : str := lit "secret".

(** The known vector, as received behind the tunnel. *)
Definition hook_http : Request :=
  {| url := lit "http://example.com/hook";
     x_twilio_signature := Some (lit "bVC8YmH56Aj38JxyqIXPLvKpZQo=");
     form := [(lit "Name", lit "value")] |}.

(** The same request with the URL already reported as https. *)
Definition hook_https : Request :=
  {| url := lit "https://example.com/hook";
     x_twilio_signature := Some (lit "bVC8YmH56Aj38JxyqIXPLvKpZQo=");
     form := [(lit "Name", lit "value")] |}.

(** A signature header and no form field. *)
Definition signed_no_fields : Request :=
  {| url := lit "http://example.com/hook";
     x_twilio_signature := Some (lit "bVC8YmH56Aj38JxyqIXPLvKpZQo=");
     form := [] |}.

(** A signature header sent with an empty value. *)
Definition empty_header : Request :=
  {| url := lit "http://example.com/hook";
     x_twilio_signature := Some [];
     form := [(lit "Name", lit "value")] |}.

(** No signature header at all. *)
Definition unsigned : Request :=
  {| url := lit "http://example.com/hook";
     x_twilio_signature := None;
     form := [(lit "Name", lit "value")] |}.

(** One name sent twice, in the two possible orders. *)
Definition repeated_12 : Request :=
  {| url := lit "http://example.com/hook";
     x_twilio_signature := Some (lit "RpoNxx43ShUSMZj633MsveGF/yc=");
     form := [(lit "a", lit "1"); (lit "a", lit "2")] |}.

Definition repeated_21 : Request :=
  {| url := lit "http://example.com/hook";
     x_twilio_signature := Some (lit "RpoNxx43ShUSMZj633MsveGF/yc=");
     form := [(lit "a", lit "2"); (lit "a", lit "1")] |}.

(** A body sent as b=2, Z=1, a=0: the fields come out as Z, a, b. *)
Definition unsorted_fields : Request :=
  {| url := lit "http://example.com/hook";
     x_twilio_signature := None;
     form := [(lit "b", lit "2"); (lit "Z", lit "1"); (lit "a", lit "0")] |}.

(** Two distinct names, in the two possible orders. *)
Definition fields_ab : Request :=
  {| url := lit "http://example.com/hook";
     x_twilio_signature := Some (lit "x");
     form := [(lit "a", lit "1"); (lit "b", lit "2")] |}.

Definition fields_ba : Request :=
  {| url := lit "http://example.com/hook";
     x_twilio_signature := Some (lit "x");
     form := [(lit "b", lit "2"); (lit "a", lit "1")] |}.

(** Two fields and a URL already reported as https. *)
Definition https_fields_ba : Request :=
  {| url := lit "https://example.com/hook";
     x_twilio_signature := Some (lit "x");
     form := [(lit "b", lit "2"); (lit "a", lit "1")] |}.

(** A validator that accepts everything and a view that answers [ok]. *)
Definition accept_all (_ _ : str) (_ : MultiDict) (_ : str) : bool := true.

Definition ok_view : M response := ([], Val (Response (lit "ok") (lit "text/plain"))).

(** ** Further notions *)

(** The request with another form. *)
Definition with_form (request : Request) (fields : MultiDict) : Request :=
  {| url := url request;
     x_twilio_signature := x_twilio_signature request;
     form := fields |}.

(** Is the name [k] not the name of the pair? *)
Definition other_name (k : str) (kv : str * str) : bool :=
  negb (str_eqb k (fst kv)).

(** The two responses of the inline gate that are reached. *)
Definition no_signature_response : response :=
  tuple_response
    (lit "No X-Twilio-Signature. This request likely did not originate from Twilio.")
    418.

Definition no_body_response : response :=
  tuple_response (lit "Bad Request - no form params") 400.

(** ** The [/decorator_test] route *)

Section DecoratorTest.

(** The validator of the Twilio helper library, as for [decorated]. *)
Variable validator_validate : str -> str -> MultiDict -> str -> bool.

(** [str(r)] for a [VoiceResponse] [r] after [r.say(text)]: the TwiML text
    built by the Twilio helper library. *)
Variable VoiceResponse_say : str -> str.

(** The body of the view: it builds the document and answers with it. *)
Definition decorator_test_view : M response :=
  let r := VoiceResponse_say (lit "Signature is validated!") in
  ret (Response r (lit "application/xml")).

Definition decorator_test (TWILIO_AUTH_TOKEN : option str) (request : Request)
  : M response :=
  decorated validator_validate decorator_test_view TWILIO_AUTH_TOKEN request.

End DecoratorTest.

(** ** The [/weather] route *)

(** [str(n)] for an [int]: its decimal digits, with a sign when negative. *)
Fixpoint digits (fuel : nat) (n : Z) (acc : str) : str :=
  match fuel with
  | O => acc
  | S fuel' =>
      let acc' := (48 + n mod 10) :: acc in
      if n / 10 =? 0 then acc' else digits fuel' (n / 10) acc'
  end.

Definition str_of_int (n : Z) : str :=
  if n <? 0 then 45 :: digits (S (Z.to_nat (Z.log2 (- n)))) (- n) []
  else digits (S (Z.to_nat (Z.log2 n))) n [].

Module Weather.

(** What [.json()] of a reply yields: [None], [bool], a number (kept as the
    text Python prints for it), [str], [list] and [dict] (its items). *)
#[warnings="-register-all"]
Inductive json : Type :=
| JNull
| JBool (b : bool)
| JNum (text : str)
| JStr (s : str)
| JArr (l : list json)
| JObj (members : list (str * json)).

Inductive exn :=
| KeyError | TypeError | AttributeError | IndexError | UnboundLocalError
| RequestException                     (* requests.get failed *)
| JSONDecodeError.                     (* the reply is not JSON *)

Inductive event :=
| Printed (s : str)                    (* print(s) *)
| PrintedAt (s : str)                  (* print(f"{datetime.datetime.now()}{s}") *)
| Get (u : str).                       (* requests.get(u) *)

Inductive result (A : Type) :=
| Val (a : A)
| Return (r : response)
| Raise (e : exn).
Arguments Val {A} a.
Arguments Return {A} r.
Arguments Raise {A} e.

Definition W (A : Type) : Type := list event * result A.

Definition ret {A} (a : A) : W A := ([], Val a).

Definition bind {A B} (m : W A) (k : A -> W B) : W B :=
  match m with
  | (t, Val a) => let '(t', r) := k a in (t ++ t', r)
  | (t, Return r) => (t, Return r)
  | (t, Raise e) => (t, Raise e)
  end.

Declare Scope weather_scope.
Notation "x <- m ;; k" := (bind m (fun x => k))
  (at level 61, m at next level, right associativity) : weather_scope.
Notation "m ;; k" := (bind m (fun _ => k))
  (at level 61, right associativity) : weather_scope.
Local Open Scope weather_scope.

Definition emit (e : event) : W unit := ([e], Val tt).
Definition print (s : str) : W unit := emit (Printed s).
Definition print_at (s : str) : W unit := emit (PrintedAt s).
Definition return_ {A} (r : response) : W A := ([], Return r).
Definition raise {A} (e : exn) : W A := ([], Raise e).

(** [try: m except: h], the bare [except] that catches everything. *)
Definition try_except {A} (m : W A) (h : W A) : W A :=
  match m with
  | (t, Raise _) => let '(t', r) := h in (t ++ t', r)
  | _ => m
  end.

Definition answer (m : W response) : response + exn :=
  match snd m with
  | Val r | Return r => inl r
  | Raise e => inr e
  end.

Definition trace {A} (m : W A) : list event := fst m.

Definition is_Get (e : event) : bool :=
  match e with Get _ => true | _ => false end.

(** The upstream requests of a run, in order. *)
Definition gets {A} (m : W A) : list event := filter is_Get (trace m).

(** A run preceded by some events. *)
Definition tell {A} (es : list event) (m : W A) : W A :=
  (es ++ trace m, snd m).

(** The value of a loop variable after the loop has run through [gs]. *)
Definition after (gs : list json) (g : option json) : option json :=
  fold_left (fun _ g' => Some g') gs g.

(** [d[k]] on the items of a [dict]. *)
Fixpoint member (k : str) (members : list (str * json)) : option json :=
  match members with
  | [] => None
  | (k', v) :: rest => if str_eqb k' k then Some v else member k rest
  end.

(** [j[k]] for a [str] key [k]. *)
Definition subscript (j : json) (k : str) : W json :=
  match j with
  | JObj members =>
      match member k members with
      | Some v => ret v
      | None => raise KeyError
      end
  | _ => raise TypeError
  end.

(** What [for g in j] runs through. *)
Definition iterate (j : json) : W (list json) :=
  match j with
  | JArr l => ret l
  | JObj members => ret (map (fun kv => JStr (fst kv)) members)
  | JStr s => ret (map (fun c => JStr [c]) s)
  | _ => raise TypeError
  end.

(** [j == s] for a [str] [s]. *)
Definition json_eq_str (j : json) (s : str) : bool :=
  match j with
  | JStr t => str_eqb t s
  | _ => false
  end.

(** A state object of the [us] package: [str(state)] is its name. *)
Record State := { name : str; capital : str }.

(** A reply of [requests.get]: [.status_code] and [.json()], [None] when
    the body is not JSON. *)
Record reply := { status_code : Z; body_json : option json }.

Section View.

(** [us.states.STATES] and [us.states.lookup], of the [us] package. *)
Variable STATES : list State.
Variable lookup : str -> option State.

(** What [requests.get] finds at a URL; [None] when the request fails. *)
Variable requests_get : str -> option reply.

(** The text of a [list] or [dict] in an f-string. *)
Variable repr : json -> str.

(** The module variable, [None] when the environment does not set it. *)
Variable WEATHER_API_KEY : option str.

(** [f"{j}"]. *)
Definition format (j : json) : str :=
  match j with
  | JNull => lit "None"
  | JBool true => lit "True"
  | JBool false => lit "False"
  | JNum text => text
  | JStr s => s
  | _ => repr j
  end.

Definition format_key : str :=
  match WEATHER_API_KEY with
  | Some k => k
  | None => lit "None"
  end.

Definition get (u : str) : W reply :=
  emit (Get u) ;;
  match requests_get u with
  | Some r => ret r
  | None => raise RequestException
  end.

Definition json_ (r : reply) : W json :=
  match body_json r with
  | Some j => ret j
  | None => raise JSONDecodeError
  end.

(** [request.form[k]]. *)
Definition form_getitem (request : Request) (k : str) : W str :=
  match getitem (form request) k with
  | Some v => ret v
  | None => raise KeyError
  end.

(** [us.states.lookup(state).name]. *)
Definition lookup_name (state : str) : W str :=
  match lookup state with
  | Some s => ret (name s)
  | None => raise AttributeError
  end.

(** City, state and country of the caller, or, if one of them is missing,
    capital and name of the state drawn by [randrange(50)], and [US]. *)
Definition caller (drawn : nat) (request : Request) : W (str * str * str) :=
  try_except
    (city <- form_getitem request (lit "CallerCity") ;;
     state <- form_getitem request (lit "CallerState") ;;
     country <- form_getitem request (lit "CallerCountry") ;;
     ret (city, state, country))
    (s <- match nth_error STATES drawn with
          | Some s => ret s
          | None => raise IndexError
          end ;;
     match lookup (name s) with
     | Some state => ret (capital state, name state, lit "US")
     | None => raise AttributeError
     end).

Definition geo_url (city state country : str) : str :=
  lit "http://api.openweathermap.org/geo/1.0/direct?q="
  ++ city ++ lit "," ++ state ++ lit "," ++ country
  ++ lit "&limit=100&appid=" ++ format_key.

Definition weather_url (lat lon : json) : str :=
  lit "https://api.openweathermap.org/data/2.5/weather?lat=" ++ format lat
  ++ lit "&lon=" ++ format lon ++ lit "&units=imperial&appid=" ++ format_key.

(** The two prints and the answer on a status other than 200. *)
Definition not_ok {A} (what : str) (status : Z) : W A :=
  print_at (lit " - ERROR!!!!! :-(") ;;
  print_at (lit " - " ++ what ++ lit " Status Code: " ++ str_of_int status) ;;
  return_ (tuple_response (lit "Not OK") status).

(** The loop over the places found; it yields [g] and [temp] as the loop
    leaves them, [None] for a variable that was never bound. *)
Fixpoint scan (state : str) (gs : list json) (g : option json)
  : W (option json * option json) :=
  match gs with
  | [] => ret (g, None)
  | g' :: rest =>
      g_state <- subscript g' (lit "state") ;;
      target <- lookup_name state ;;
      if json_eq_str g_state target then
        lat <- subscript g' (lit "lat") ;;
        lon <- subscript g' (lit "lon") ;;
        w <- get (weather_url lat lon) ;;
        print_at (lit " - Weather Status Code: " ++ str_of_int (status_code w)) ;;
        if negb (status_code w =? 200) then not_ok (lit "Weather") (status_code w)
        else
          w_data <- json_ w ;;
          main <- subscript w_data (lit "main") ;;
          temp <- subscript main (lit "temp") ;;
          ret (Some g', Some temp)
      else scan state rest (Some g')
  end.

(** Reading a local variable. *)
Definition local {A} (x : option A) : W A :=
  match x with
  | Some a => ret a
  | None => raise UnboundLocalError
  end.

Definition spoken (city : str) (g_state temp : json) : str :=
  lit "<Response><Say>Thank you for calling the weather hotline. The temperature in "
  ++ city ++ lit ", " ++ format g_state ++ lit " is " ++ format temp
  ++ lit " degrees. </Say></Response>".

Definition weather (drawn : nat) (request : Request) : W response :=
  print (repeat 45 55) ;;
  location <- caller drawn request ;;
  let '(city, state, country) := location in
  geofinder <- get (geo_url city state country) ;;
  print_at (lit " - Geo Finder Status Code: "
            ++ str_of_int (status_code geofinder)) ;;
  if negb (status_code geofinder =? 200)
  then not_ok (lit "Geo Finder") (status_code geofinder)
  else
    geo_data <- json_ geofinder ;;
    gs <- iterate geo_data ;;
    found <- scan state gs None ;;
    let '(g, temp) := found in
    g <- local g ;;
    g_state <- subscript g (lit "state") ;;
    temp <- local temp ;;
    let twiml_response := spoken city g_state temp in
    print (lit "Temp in " ++ city ++ lit ", " ++ state ++ lit ": " ++ format temp) ;;
    ret (Response twiml_response (lit "application/xml")).

(** An entry that has a ["state"] which is not the wanted name. *)
Definition other_state (wanted : str) (g : json) : Prop :=
  match g with
  | JObj members =>
      match member (lit "state") members with
      | Some v => json_eq_str v wanted = false
      | None => False
      end
  | _ => False
  end.

(** A run that stops early does so with [Not OK] and the status, other than
    200, of a reply to one of its requests. *)
Definition stops_not_ok {A} (m : W A) : Prop :=
  forall r, snd m = Return r ->
  exists u rep,
    In (Get u) (trace m) /\ requests_get u = Some rep
    /\ status_code rep <> 200
    /\ r = tuple_response (lit "Not OK") (status_code rep).

End View.

End Weather.

(** ** Sample data for the [/weather] route *)

Definition california : Weather.State :=
  {| Weather.name := lit "California"; Weather.capital := lit "Sacramento" |}.

(** A [us.states.lookup] that knows California by abbreviation and name. *)
Definition us_lookup (s : str) : option Weather.State :=
  if str_eqb s (lit "CA") || str_eqb s (lit "California")
  then Some california else None.

Definition texas_entry : Weather.json :=
  Weather.JObj [(lit "state", Weather.JStr (lit "Texas"));
                (lit "lat", Weather.JNum (lit "1.5"));
                (lit "lon", Weather.JNum (lit "2"))].

Definition california_members : list (str * Weather.json) :=
  [(lit "state", Weather.JStr (lit "California"));
   (lit "lat", Weather.JNum (lit "34.05"));
   (lit "lon", Weather.JNum (lit "-118.24"))].

Definition bay_members : list (str * Weather.json) :=
  [(lit "state", Weather.JStr (lit "California"));
   (lit "lat", Weather.JNum (lit "37.77"));
   (lit "lon", Weather.JNum (lit "-122.42"))].

Definition main_members : list (str * Weather.json) :=
  [(lit "temp", Weather.JNum (lit "71.3"))].

Definition weather_members : list (str * Weather.json) :=
  [(lit "main", Weather.JObj main_members)].

(** An upstream that finds two places for LA, one place (in Texas) for
    Sacramento, one place for SF, the weather at the coordinates of LA only,
    and answers 404 to everything else. *)
Definition upstream (u : str) : option Weather.reply :=
  if str_eqb u
       (lit "http://api.openweathermap.org/geo/1.0/direct?q=LA,CA,US&limit=100&appid=K")
  then Some {| Weather.status_code := 200;
               Weather.body_json :=
                 Some (Weather.JArr
                         [texas_entry; Weather.JObj california_members]) |}
  else if str_eqb u
       (lit "http://api.openweathermap.org/geo/1.0/direct?q=Sacramento,California,US&limit=100&appid=K")
  then Some {| Weather.status_code := 200;
               Weather.body_json := Some (Weather.JArr [texas_entry]) |}
  else if str_eqb u
       (lit "http://api.openweathermap.org/geo/1.0/direct?q=SF,CA,US&limit=100&appid=K")
  then Some {| Weather.status_code := 200;
               Weather.body_json :=
                 Some (Weather.JArr [Weather.JObj bay_members; texas_entry]) |}
  else if str_eqb u
       (lit "https://api.openweathermap.org/data/2.5/weather?lat=34.05&lon=-118.24&units=imperial&appid=K")
  then Some {| Weather.status_code := 200;
               Weather.body_json := Some (Weather.JObj weather_members) |}
  else Some {| Weather.status_code := 404; Weather.body_json := None |}.

Definition plain_repr (_ : Weather.json) : str := lit "[...]".

Definition caller_la : Request :=
  {| url := lit "http://example.com/weather";
     x_twilio_signature := None;
     form := [(lit "CallerCity", lit "LA"); (lit "CallerState", lit "CA");
              (lit "CallerCountry", lit "US")] |}.

(** A call of which only the city is known. *)
Definition caller_city_only : Request :=
  with_form caller_la [(lit "CallerCity", lit "LA")].

(** A call from a place the upstream does not know. *)
Definition caller_nowhere : Request :=
  with_form caller_la
    [(lit "CallerCity", lit "Nowhere"); (lit "CallerState", lit "CA");
     (lit "CallerCountry", lit "US")].

(** A call from a place of which the upstream has no weather. *)
Definition caller_sf : Request :=
  with_form caller_la
    [(lit "CallerCity", lit "SF"); (lit "CallerState", lit "CA");
     (lit "CallerCountry", lit "US")].

(** The view with the sample [us] data, upstream and key. *)
Definition sample_weather : nat -> Request -> Weather.W response :=
  Weather.weather [california] us_lookup upstream plain_repr (Some (lit "K")).

(** * Properties *)

(** ** The models of [hashlib], [hmac], [base64] and UTF-8 on published vectors *)

(** Published vectors: FIPS 180-4 ("abc", the empty message, the two-block
    message), RFC 2202 (HMAC-SHA-1 cases 1, 2 and 6) and RFC 4648. *)

Example sha1_abc :
  hex (SHA1.digest (lit "abc")) = lit "a9993e364706816aba3e25717850c26c9cd0d89d".
Proof. vm_compute. reflexivity. Qed.

Example sha1_empty :
  hex (SHA1.digest []) = lit "da39a3ee5e6b4b0d3255bfef95601890afd80709".
Proof. vm_compute. reflexivity. Qed.

Example sha1_two_blocks :
  hex (SHA1.digest
         (lit "abcdbcdecdefdefgefghfghighijhijkijkljklmklmnlmnomnopnopq"))
  = lit "84983e441c3bd26ebaae4aa1f95129e5e54670f1".
Proof. vm_compute. reflexivity. Qed.

Example hmac_rfc2202_1 :
  hex (HMAC.digest (repeat 11 20) (lit "Hi There"))
  = lit "b617318655057264e28bc0b6fb378c8ef146be00".
Proof. vm_compute. reflexivity. Qed.

Example hmac_rfc2202_2 :
  hex (HMAC.digest (lit "Jefe") (lit "what do ya want for nothing?"))
  = lit "effcdf6ae5eb2fa2d27416d5f184df9c259a7c79".
Proof. vm_compute. reflexivity. Qed.

Example hmac_rfc2202_6 :
  hex (HMAC.digest (repeat 170 80)
         (lit "Test Using Larger Than Block-Size Key - Hash Key First"))
  = lit "aa4ae5e15272d00e95705637ce8a3b55ed402112".
Proof. vm_compute. reflexivity. Qed.

Example b64_rfc4648 :
  Base64.b64encode (lit "foobar") = lit "Zm9vYmFy"
  /\ Base64.b64encode (lit "fooba") = lit "Zm9vYmE="
  /\ Base64.b64encode (lit "foob") = lit "Zm9vYg=="
  /\ Base64.b64encode [] = [].
Proof. vm_compute. repeat split. Qed.

Example utf8_samples :
  UTF8.encode [228; 8364; 128512] = Some [195; 164; 226; 130; 172; 240; 159; 152; 128]
  /\ UTF8.decode [195; 164; 226; 130; 172; 240; 159; 152; 128] = Some [228; 8364; 128512]
  /\ UTF8.encode [55296] = None
  /\ UTF8.decode [237; 160; 128] = None
  /\ UTF8.decode [192; 128] = None.
Proof. vm_compute. repeat split. Qed.

(** ** Comparisons on [str] *)

Lemma str_eqb_eq (a b : str) : str_eqb a b = true <-> a = b.
Proof.
  revert b; induction a as [|x a IH]; intros [|y b]; simpl;
    try (split; [discriminate | congruence]); try tauto.
  rewrite andb_true_iff, Z.eqb_eq, IH.
  split; [intros [-> ->]; reflexivity | intros [= -> ->]; auto].
Qed.

Lemma str_eqb_refl (a : str) : str_eqb a a = true.
Proof. apply str_eqb_eq; reflexivity. Qed.

Lemma str_eqb_neq (a b : str) : str_eqb a b = false <-> a <> b.
Proof.
  rewrite <- str_eqb_eq. destruct (str_eqb a b); split; congruence.
Qed.

Lemma str_ltb_irrefl (a : str) : str_ltb a a = false.
Proof.
  induction a as [|x a IH]; simpl; [reflexivity|].
  rewrite Z.ltb_irrefl, Z.eqb_refl, IH; reflexivity.
Qed.

Lemma str_ltb_trans (a b c : str) :
  str_ltb a b = true -> str_ltb b c = true -> str_ltb a c = true.
Proof.
  revert b c; induction a as [|x a IH]; intros [|y b] [|z c]; simpl;
    try discriminate; auto.
  rewrite !orb_true_iff, !andb_true_iff, !Z.ltb_lt, !Z.eqb_eq.
  intros [H1 | [H1 H1']] [H2 | [H2 H2']]; subst;
    try (left; lia); try (left; assumption).
  right; split; [reflexivity | eapply IH; eassumption].
Qed.

(** Two strings are equal or one is below the other. *)
Lemma str_ltb_total (a b : str) :
  str_ltb a b = false -> str_ltb b a = false -> a = b.
Proof.
  revert b; induction a as [|x a IH]; intros [|y b]; simpl;
    try discriminate; auto.
  rewrite !orb_false_iff, !andb_false_iff, !Z.ltb_ge, !Z.eqb_neq.
  intros [H1 H1'] [H2 H2'].
  assert (x = y) by lia; subst y.
  f_equal. apply IH; [destruct H1' | destruct H2']; congruence.
Qed.

Lemma str_ltb_asym (a b : str) : str_ltb a b = true -> str_ltb b a = false.
Proof.
  intros H. destruct (str_ltb b a) eqn:E; [|reflexivity].
  rewrite <- (str_ltb_irrefl a). symmetry. eapply str_ltb_trans; eassumption.
Qed.

(** ** Digests are twenty bytes *)

Lemma land_255_byte (x : Z) : is_byte (Z.land x 255).
Proof.
  unfold is_byte. change 255 with (Z.ones 8).
  rewrite Z.land_ones by lia. apply Z.mod_pos_bound. lia.
Qed.

Lemma serialize_length (h : SHA1.state) : length (SHA1.serialize h) = 20%nat.
Proof. destruct h as [[[[a b] c] d] e]. reflexivity. Qed.

Lemma unpack32_bytes (w : Z) : Forall is_byte (SHA1.unpack32 w).
Proof. unfold SHA1.unpack32. repeat constructor; apply land_255_byte. Qed.

Lemma serialize_bytes (h : SHA1.state) : Forall is_byte (SHA1.serialize h).
Proof.
  destruct h as [[[[a b] c] d] e]. unfold SHA1.serialize.
  repeat (apply Forall_app; split); apply unpack32_bytes.
Qed.

Lemma sha1_digest_length (msg : bytes) : length (SHA1.digest msg) = 20%nat.
Proof. apply serialize_length. Qed.

Lemma sha1_digest_bytes (msg : bytes) : Forall is_byte (SHA1.digest msg).
Proof. apply serialize_bytes. Qed.

Lemma hmac_digest_length (key msg : bytes) :
  length (HMAC.digest key msg) = 20%nat.
Proof. apply sha1_digest_length. Qed.

Lemma hmac_digest_bytes (key msg : bytes) :
  Forall is_byte (HMAC.digest key msg).
Proof. apply sha1_digest_bytes. Qed.

(** ** Base64 output *)

Lemma list_ind3 {A} (P : list A -> Prop) :
  P [] -> (forall a, P [a]) -> (forall a b, P [a; b]) ->
  (forall a b c r, P r -> P (a :: b :: c :: r)) ->
  forall l, P l.
Proof.
  intros H0 H1 H2 H3.
  assert (forall l, P l /\ (forall a, P (a :: l)) /\ (forall a b, P (a :: b :: l)))
    as H; [|intros l; apply H].
  induction l as [|x l (IHa & IHb & IHc)]; repeat split; auto.
Qed.

Lemma lor_lt_64 (x y : Z) :
  0 <= x < 64 -> 0 <= y < 64 -> 0 <= Z.lor x y < 64.
Proof.
  intros Hx Hy.
  assert (0 <= Z.lor x y) as Hn by (apply Z.lor_nonneg; lia).
  split; [assumption|].
  destruct (Z.eq_dec (Z.lor x y) 0) as [->|Hz]; [lia|].
  change 64 with (2 ^ 6). apply Z.log2_lt_pow2; [lia|].
  rewrite Z.log2_lor by lia.
  assert (forall z, 0 <= z < 64 -> Z.log2 z < 6) as L.
  { intros z Hz'. destruct (Z.eq_dec z 0) as [->|]; [reflexivity|].
    apply Z.log2_lt_pow2; [lia|]. change (2 ^ 6) with 64. lia. }
  apply Z.max_lub_lt; apply L; assumption.
Qed.

Lemma enc_b64char (i : Z) : 0 <= i < 64 -> b64char (Base64.enc i) = true.
Proof.
  intros Hi.
  assert (forallb (fun n => b64char (Base64.enc (Z.of_nat n))) (seq 0 64) = true)
    as H by (vm_compute; reflexivity).
  rewrite forallb_forall in H.
  specialize (H (Z.to_nat i)). rewrite Z2Nat.id in H by lia.
  apply H. apply in_seq. lia.
Qed.

Lemma pad_b64char : b64char Base64.pad_char = true.
Proof. reflexivity. Qed.

(** A character of the encoding is ASCII and is not white space. *)
Lemma b64char_ascii (c : Z) :
  b64char c = true -> 0 <= c < 128 /\ isspace c = false.
Proof.
  intros H.
  assert (forallb (fun c => (0 <=? c) && (c <? 128) && negb (isspace c))
            (Base64.pad_char :: Base64.alphabet) = true)
    as A by (vm_compute; reflexivity).
  rewrite forallb_forall in A.
  apply existsb_exists in H. destruct H as (x & Hx & E).
  apply Z.eqb_eq in E; subst x.
  specialize (A c Hx).
  rewrite !andb_true_iff, negb_true_iff, Z.leb_le, Z.ltb_lt in A.
  destruct A as [[? ?] ?]. auto.
Qed.

Section SextetBounds.

Variables a b c : Z.
Hypothesis Ha : is_byte a.
Hypothesis Hb : is_byte b.
Hypothesis Hc : is_byte c.

Lemma sextet_hi : 0 <= Z.shiftr a 2 < 64.
Proof.
  unfold is_byte in Ha. rewrite Z.shiftr_div_pow2 by lia.
  change (2 ^ 2) with 4. split.
  - apply Z.div_pos; lia.
  - apply Z.div_lt_upper_bound; lia.
Qed.

Lemma sextet_lo2 : 0 <= Z.shiftl (Z.land a 3) 4 < 64.
Proof.
  rewrite Z.shiftl_mul_pow2 by lia. change 3 with (Z.ones 2).
  rewrite Z.land_ones by lia. change (2 ^ 4) with 16. change (2 ^ 2) with 4.
  pose proof (Z.mod_pos_bound a 4). lia.
Qed.

Lemma sextet_hi4 : 0 <= Z.shiftr b 4 < 64.
Proof.
  unfold is_byte in Hb. rewrite Z.shiftr_div_pow2 by lia.
  change (2 ^ 4) with 16. split.
  - apply Z.div_pos; lia.
  - apply Z.div_lt_upper_bound; lia.
Qed.

Lemma sextet_lo4 : 0 <= Z.shiftl (Z.land b 15) 2 < 64.
Proof.
  rewrite Z.shiftl_mul_pow2 by lia. change 15 with (Z.ones 4).
  rewrite Z.land_ones by lia. change (2 ^ 4) with 16. change (2 ^ 2) with 4.
  pose proof (Z.mod_pos_bound b 16). lia.
Qed.

Lemma sextet_hi6 : 0 <= Z.shiftr c 6 < 64.
Proof.
  unfold is_byte in Hc. rewrite Z.shiftr_div_pow2 by lia.
  change (2 ^ 6) with 64. split.
  - apply Z.div_pos; lia.
  - apply Z.div_lt_upper_bound; lia.
Qed.

Lemma sextet_lo6 : 0 <= Z.land c 63 < 64.
Proof.
  change 63 with (Z.ones 6). rewrite Z.land_ones by lia.
  apply Z.mod_pos_bound. reflexivity.
Qed.

End SextetBounds.

Lemma b64encode_chars (bs : bytes) :
  Forall is_byte bs -> Forall (fun c => b64char c = true) (Base64.b64encode bs).
Proof.
  induction bs as [|a|a b|a b c r IH] using list_ind3; intros H.
  - constructor.
  - inversion_clear H as [|? ? Ha _].
    cbn [Base64.b64encode].
    repeat constructor;
      auto using enc_b64char, sextet_hi, sextet_lo2, pad_b64char.
  - inversion_clear H as [|? ? Ha H']. inversion_clear H' as [|? ? Hb _].
    cbn [Base64.b64encode].
    repeat constructor;
      auto using enc_b64char, lor_lt_64, sextet_hi, sextet_lo2, sextet_hi4,
        sextet_lo4, pad_b64char.
  - inversion_clear H as [|? ? Ha H']. inversion_clear H' as [|? ? Hb H''].
    inversion_clear H'' as [|? ? Hc Hr].
    cbn [Base64.b64encode].
    repeat (constructor;
      [solve [auto using enc_b64char, lor_lt_64, sextet_hi, sextet_lo2,
                sextet_hi4, sextet_lo4, sextet_hi6, sextet_lo6]|]).
    apply IH; assumption.
Qed.

(** Four characters for every three bytes begun. *)
Lemma b64encode_length (bs : bytes) :
  length (Base64.b64encode bs) = (4 * ((length bs + 2) / 3))%nat.
Proof.
  induction bs as [|a|a b|a b c r IH] using list_ind3; try reflexivity.
  cbn [Base64.b64encode length]. rewrite IH.
  replace (S (S (S (length r))) + 2)%nat with ((length r + 2) + 1 * 3)%nat by lia.
  rewrite Nat.div_add by lia. lia.
Qed.

(** ** Decoding and stripping an ASCII string *)

Lemma decode_ascii (bs : bytes) :
  Forall (fun c => 0 <= c < 128) bs -> UTF8.decode bs = Some bs.
Proof.
  induction 1 as [|b r Hb _ IH]; [reflexivity|].
  cbn [UTF8.decode].
  replace ((0 <=? b) && (b <? 128)) with true
    by (symmetry; apply andb_true_iff; split;
        [apply Z.leb_le | apply Z.ltb_lt]; lia).
  rewrite IH. reflexivity.
Qed.

Lemma lstrip_space_id (s : str) :
  Forall (fun c => isspace c = false) s -> lstrip_space s = s.
Proof.
  destruct 1 as [|c r Hc _]; [reflexivity|].
  cbn [lstrip_space]. rewrite Hc. reflexivity.
Qed.

Lemma strip_id (s : str) :
  Forall (fun c => isspace c = false) s -> strip s = s.
Proof.
  intros H. unfold strip. rewrite (lstrip_space_id s H).
  rewrite lstrip_space_id by (apply Forall_rev; assumption).
  apply rev_involutive.
Qed.

(** ** The signer *)

Lemma signature_chars (key msg : bytes) :
  Forall (fun c => b64char c = true) (signature key msg).
Proof. apply b64encode_chars, hmac_digest_bytes. Qed.

Lemma signature_ascii (key msg : bytes) :
  Forall (fun c => 0 <= c < 128) (signature key msg).
Proof.
  eapply Forall_impl; [|apply signature_chars].
  intros c Hc. apply b64char_ascii, Hc.
Qed.

Lemma signature_nonspace (key msg : bytes) :
  Forall (fun c => isspace c = false) (signature key msg).
Proof.
  eapply Forall_impl; [|apply signature_chars].
  intros c Hc. apply b64char_ascii, Hc.
Qed.

Lemma signature_length (key msg : bytes) : length (signature key msg) = 28%nat.
Proof.
  unfold signature. rewrite b64encode_length, hmac_digest_length. reflexivity.
Qed.

(** With a token and a canonical string that have UTF-8 forms the signer
    calls [hmac.new] on them and raises on [mac.__dict__]. *)
Lemma sign_encodable (key domain : str) (kb mb : bytes) :
  UTF8.encode key = Some kb -> UTF8.encode domain = Some mb ->
  sign (Some key) domain = ([HmacNew kb mb], Raise AttributeError).
Proof.
  intros Hk Hm. unfold sign, bytes_utf8, encode_utf8.
  rewrite Hk, Hm. reflexivity.
Qed.

Lemma sign_no_token (domain : str) : sign None domain = ([], Raise TypeError).
Proof. reflexivity. Qed.

Lemma sign_key_not_encodable (key domain : str) :
  UTF8.encode key = None ->
  sign (Some key) domain = ([], Raise UnicodeEncodeError).
Proof. intros H. unfold sign, bytes_utf8. rewrite H. reflexivity. Qed.

Lemma sign_domain_not_encodable (key domain : str) (kb : bytes) :
  UTF8.encode key = Some kb -> UTF8.encode domain = None ->
  sign (Some key) domain = ([], Raise UnicodeEncodeError).
Proof.
  intros Hk Hm. unfold sign, bytes_utf8, encode_utf8. rewrite Hk, Hm.
  reflexivity.
Qed.

(** ** Running the inline gate *)

Lemma twiml_no_header (tok : option str) (request : Request) :
  x_twilio_signature request = None ->
  twiml tok request
  = ([], Return (tuple_response
       (lit "No X-Twilio-Signature. This request likely did not originate from Twilio.")
       418)).
Proof.
  intros H. unfold twiml, headers_getitem. rewrite H. reflexivity.
Qed.

Lemma twiml_no_body (tok : option str) (request : Request) (sig : str) :
  x_twilio_signature request = Some sig -> form request = [] ->
  twiml tok request
  = ([Print (PStr (lit "X-Twilio-Signature: " ++ sig))],
     Return (tuple_response (lit "Bad Request - no form params") 400)).
Proof.
  intros H F. unfold twiml, headers_getitem. rewrite H, F. reflexivity.
Qed.

(** With a header and a body the gate runs the signer on the canonical
    string; the comparison is for the value the signer would yield. *)
Lemma twiml_signs (tok : option str) (request : Request) (sig : str) :
  x_twilio_signature request = Some sig -> form request <> [] ->
  twiml tok request
  = (Print (PStr (lit "X-Twilio-Signature: " ++ sig))
       :: trace (sign tok (canonical_string request)),
     match snd (sign tok (canonical_string request)) with
     | Val diy_signature =>
         if negb (str_eqb diy_signature sig)
         then Return (tuple_response (lit "Signature does not match") 403)
         else Return (Response twiml_response (lit "application/xml"))
     | Return r => Return r
     | Raise e => Raise e
     end).
Proof.
  intros H F. unfold twiml, headers_getitem. rewrite H.
  destruct (form request) as [|kv rest]; [congruence|].
  cbv beta iota zeta delta [bind ret emit print try_except_KeyError].
  destruct (sign tok (canonical_string request)) as [t [s | r | e]];
    cbn [trace fst snd]; try reflexivity.
  destruct (negb (str_eqb s sig)); cbv [return_];
    rewrite ?app_nil_r; reflexivity.
Qed.

(** The signer never yields a value. *)
Lemma snd_sign (tok : option str) (canonical : str) :
  snd (sign tok canonical)
  = Raise match tok with
          | None => TypeError
          | Some key =>
              match UTF8.encode key, UTF8.encode canonical with
              | Some _, Some _ => AttributeError
              | _, _ => UnicodeEncodeError
              end
          end.
Proof.
  destruct tok as [key|]; [|reflexivity].
  destruct (UTF8.encode key) as [kb|] eqn:Hk.
  - destruct (UTF8.encode canonical) as [mb|] eqn:Hm.
    + rewrite (sign_encodable _ _ _ _ Hk Hm). reflexivity.
    + rewrite (sign_domain_not_encodable _ _ _ Hk Hm). reflexivity.
  - rewrite (sign_key_not_encodable _ _ Hk). reflexivity.
Qed.

(** A request with the header and a field: the header line is printed, the
    signer runs and its exception escapes. *)
Lemma twiml_signed (tok : option str) (request : Request) (sig : str) :
  x_twilio_signature request = Some sig -> form request <> [] ->
  twiml tok request
  = (Print (PStr (lit "X-Twilio-Signature: " ++ sig))
       :: trace (sign tok (canonical_string request)),
     Raise match tok with
           | None => TypeError
           | Some key =>
               match UTF8.encode key,
                     UTF8.encode (canonical_string request) with
               | Some _, Some _ => AttributeError
               | _, _ => UnicodeEncodeError
               end
           end).
Proof.
  intros H F. rewrite (twiml_signs _ _ sig H F), snd_sign. reflexivity.
Qed.

(** ** Running the decorator *)

Lemma decorated_unset
  (v : str -> str -> MultiDict -> str -> bool) (f : M response)
  (request : Request) :
  decorated v f None request = ([], Raise AttributeError).
Proof. reflexivity. Qed.

Lemma decorated_not_encodable
  (v : str -> str -> MultiDict -> str -> bool) (f : M response)
  (key : str) (request : Request) :
  UTF8.encode key = None ->
  decorated v f (Some key) request = ([], Raise UnicodeEncodeError).
Proof.
  intros H. unfold decorated, RequestValidator, encode_utf8. rewrite H.
  reflexivity.
Qed.

Lemma decorated_run
  (v : str -> str -> MultiDict -> str -> bool) (f : M response)
  (key : str) (kb : bytes) (request : Request) :
  UTF8.encode key = Some kb ->
  decorated v f (Some key) request
  = match x_twilio_signature request with
    | None | Some [] => ([], Return (tuple_response (lit "No signature") 500))
    | Some sig =>
        let https_url := lit "https://" ++ lstrip (lit "http://") (url request) in
        if v key https_url (form request) sig
        then (Validate https_url (form request) sig :: Handler :: trace f, snd f)
        else ([Validate https_url (form request) sig],
              Return (tuple_response (lit "Incorrect signature") 403))
    end.
Proof.
  intros K. unfold decorated, RequestValidator, encode_utf8. rewrite K.
  cbv beta iota zeta delta [bind ret app].
  destruct (x_twilio_signature request) as [[|c sig]|];
    try reflexivity.
  cbv beta iota zeta delta [bind ret emit print return_].
  destruct (v key _ (form request) (c :: sig)); cbn [negb].
  - destruct f as [t r]. cbn [trace fst snd app]. destruct r; reflexivity.
  - reflexivity.
Qed.

Lemma decorated_outcome_decision
  (v : str -> str -> MultiDict -> str -> bool) (f : M response)
  (key : str) (kb : bytes) (request : Request) :
  UTF8.encode key = Some kb ->
  decorated_outcome (decorated v f (Some key) request)
  = Some (decorator_decision v key request).
Proof.
  intros K. rewrite (decorated_run _ _ _ _ _ K). unfold decorator_decision.
  destruct (x_twilio_signature request) as [[|c sig]|]; try reflexivity.
  cbv zeta. destruct (v key _ (form request) (c :: sig)); reflexivity.
Qed.

Lemma decorated_handler
  (v : str -> str -> MultiDict -> str -> bool) (f : M response)
  (tok : option str) (request : Request) :
  existsb is_Handler (trace (decorated v f tok request)) = true
  <-> exists key kb,
        tok = Some key /\ UTF8.encode key = Some kb
        /\ decorator_decision v key request = Accepted.
Proof.
  destruct tok as [key|].
  - destruct (UTF8.encode key) as [kb|] eqn:K.
    + rewrite (decorated_run _ _ _ _ _ K). split.
      * intros T. exists key, kb. split; [reflexivity|]. split; [exact K|].
        unfold decorator_decision.
        destruct (x_twilio_signature request) as [[|c sig]|];
          try discriminate T.
        cbv zeta in T. destruct (v key _ (form request) (c :: sig));
          [reflexivity | discriminate T].
      * intros (k & kb' & [= <-] & _ & D). unfold decorator_decision in D.
        destruct (x_twilio_signature request) as [[|c sig]|];
          try discriminate D.
        cbv zeta. destruct (v key _ (form request) (c :: sig));
          [reflexivity | discriminate D].
    + rewrite (decorated_not_encodable _ _ _ _ K). cbn.
      split; [discriminate|]. intros (k & kb & [= <-] & E & _). congruence.
  - rewrite decorated_unset. cbn.
    split; [discriminate | intros (? & ? & ? & _); discriminate].
Qed.

(** ** Sorting the fields *)

Lemma tuple_ltb_irrefl (x : str * str) : tuple_ltb x x = false.
Proof.
  unfold tuple_ltb. rewrite !str_ltb_irrefl, andb_false_r. reflexivity.
Qed.

Lemma tuple_ltb_total (x y : str * str) :
  tuple_ltb x y = false -> tuple_ltb y x = false -> x = y.
Proof.
  destruct x as [k1 v1], y as [k2 v2]. unfold tuple_ltb; cbn [fst snd].
  rewrite !orb_false_iff, !andb_false_iff.
  intros [H1 H1'] [H2 H2'].
  pose proof (str_ltb_total _ _ H1 H2) as ->.
  rewrite str_eqb_refl in H1', H2'.
  destruct H1' as [|H1']; [discriminate|].
  destruct H2' as [|H2']; [discriminate|].
  f_equal. apply str_ltb_total; assumption.
Qed.

Lemma tuple_ltb_trans (x y z : str * str) :
  tuple_ltb x y = true -> tuple_ltb y z = true -> tuple_ltb x z = true.
Proof.
  destruct x as [k1 v1], y as [k2 v2], z as [k3 v3].
  unfold tuple_ltb; cbn [fst snd].
  rewrite !orb_true_iff, !andb_true_iff, !str_eqb_eq.
  intros [H1 | [-> H1]] [H2 | [-> H2]].
  - left. eapply str_ltb_trans; eassumption.
  - left. assumption.
  - left. assumption.
  - right. split; [reflexivity | eapply str_ltb_trans; eassumption].
Qed.

Lemma tuple_le_trans (x y z : str * str) :
  tuple_le x y -> tuple_le y z -> tuple_le x z.
Proof.
  unfold tuple_le. intros Hxy Hyz.
  destruct (tuple_ltb z x) eqn:Hzx; [|reflexivity].
  destruct (tuple_ltb y z) eqn:E.
  - rewrite (tuple_ltb_trans _ _ _ E Hzx) in Hxy. discriminate.
  - pose proof (tuple_ltb_total _ _ E Hyz) as ->. congruence.
Qed.

Lemma tuple_le_antisym (x y : str * str) : tuple_le x y -> tuple_le y x -> x = y.
Proof. unfold tuple_le. intros H1 H2. apply tuple_ltb_total; assumption. Qed.

Lemma tuple_lt_le (x y : str * str) : tuple_ltb x y = true -> tuple_le x y.
Proof.
  unfold tuple_le. intros H. destruct (tuple_ltb y x) eqn:E; [|reflexivity].
  rewrite <- (tuple_ltb_irrefl x). symmetry.
  eapply tuple_ltb_trans; eassumption.
Qed.

Lemma insert_perm (x : str * str) (l : list (str * str)) :
  Permutation (insert x l) (x :: l).
Proof.
  induction l as [|y l IH]; cbn [insert]; [reflexivity|].
  destruct (tuple_ltb y x); [|reflexivity].
  rewrite IH. apply perm_swap.
Qed.

Lemma sorted_perm (l : list (str * str)) : Permutation (sorted l) l.
Proof.
  induction l as [|x l IH]; cbn [sorted]; [reflexivity|].
  rewrite insert_perm. apply perm_skip, IH.
Qed.

Lemma insert_sorted (x : str * str) (l : list (str * str)) :
  StronglySorted tuple_le l -> StronglySorted tuple_le (insert x l).
Proof.
  induction 1 as [|y l Hl IH Hy]; cbn [insert].
  - repeat constructor.
  - destruct (tuple_ltb y x) eqn:E.
    + constructor; [assumption|].
      eapply Permutation_Forall; [symmetry; apply insert_perm|].
      constructor; [apply tuple_lt_le, E | assumption].
    + constructor; [constructor; assumption|].
      constructor; [exact E|].
      eapply Forall_impl; [|exact Hy].
      intros z Hz. eapply tuple_le_trans; [exact E | exact Hz].
Qed.

Lemma sorted_sorted (l : list (str * str)) : StronglySorted tuple_le (sorted l).
Proof.
  induction l as [|x l IH]; cbn [sorted]; [constructor|].
  apply insert_sorted, IH.
Qed.

(** A list has one sorted arrangement. *)
Lemma sorted_unique (l1 l2 : list (str * str)) :
  StronglySorted tuple_le l1 -> StronglySorted tuple_le l2 ->
  Permutation l1 l2 -> l1 = l2.
Proof.
  intros S1. revert l2. induction S1 as [|x l1 S1 IH Hx]; intros l2 S2 P.
  - apply Permutation_nil in P. congruence.
  - destruct S2 as [|y l2 S2 Hy].
    + symmetry in P. apply Permutation_nil in P. discriminate.
    + assert (x = y) as ->.
      { assert (In x (y :: l2)) as Ix
          by (eapply Permutation_in; [exact P | left; reflexivity]).
        assert (In y (x :: l1)) as Iy
          by (eapply Permutation_in; [symmetry; exact P | left; reflexivity]).
        destruct Ix as [->|Ix]; [reflexivity|].
        destruct Iy as [->|Iy]; [reflexivity|].
        rewrite Forall_forall in Hx, Hy.
        apply tuple_le_antisym; auto. }
      f_equal. apply IH; [assumption|].
      eapply Permutation_cons_inv; exact P.
Qed.

(** The order in which the pairs are handed to [sorted] does not matter. *)
Lemma sorted_permutation (l1 l2 : list (str * str)) :
  Permutation l1 l2 -> sorted l1 = sorted l2.
Proof.
  intros P. apply sorted_unique; try apply sorted_sorted.
  rewrite !sorted_perm. exact P.
Qed.

(** ** The mapping read by [items] *)

Lemma in_items (form : MultiDict) (k v : str) :
  In (k, v) (items form) <-> getitem form k = Some v.
Proof.
  induction form as [|[k' v'] rest IH]; cbn [items getitem].
  - split; [contradiction | discriminate].
  - cbn [In]. rewrite filter_In, IH. cbn [fst].
    destruct (str_eqb k' k) eqn:E.
    + apply str_eqb_eq in E; subst k'. cbn [negb].
      split.
      * intros [[= ->] | [_ ?]]; [reflexivity | discriminate].
      * intros [= ->]. left. reflexivity.
    + cbn [negb]. apply str_eqb_neq in E. split.
      * intros [[= ? ?] | [? _]]; [contradiction | assumption].
      * intros H. right. split; [assumption | reflexivity].
Qed.

Lemma items_names_nodup (form : MultiDict) : NoDup (map fst (items form)).
Proof.
  induction form as [|[k v] rest IH]; cbn [items map fst]; constructor.
  - rewrite in_map_iff. intros ([k' v'] & E & I). cbn [fst] in E; subst k'.
    apply filter_In in I. destruct I as [_ I]. cbn [fst] in I.
    rewrite str_eqb_refl in I. discriminate.
  - clear - IH. induction (items rest) as [|[k' v'] l IHl]; cbn [filter map].
    + constructor.
    + cbn [map fst] in IH. inversion_clear IH as [|? ? Hn Hd].
      destruct (negb (str_eqb k (fst (k', v')))); [|auto].
      cbn [map fst]. constructor; [|auto].
      rewrite in_map_iff in *. intros (p & E & I). apply Hn.
      exists p. split; [assumption|]. apply filter_In in I. tauto.
Qed.

(** Where no name is repeated, [items] is the form itself. *)
Lemma items_nodup (form : MultiDict) :
  NoDup (map fst form) -> items form = form.
Proof.
  induction form as [|[k v] rest IH]; cbn [items map fst]; [reflexivity|].
  intros H. inversion_clear H as [|? ? Hn Hd].
  rewrite IH by assumption. f_equal.
  clear - Hn. induction rest as [|[k' v'] rest IH]; cbn [filter]; [reflexivity|].
  cbn [map fst In] in Hn.
  replace (str_eqb k (fst (k', v'))) with false
    by (symmetry; apply str_eqb_neq; cbn [fst]; intros ->; tauto).
  cbn [negb]. f_equal. apply IH. tauto.
Qed.

Lemma items_not_nil (form : MultiDict) : form <> [] -> items form <> [].
Proof. destruct form as [|[k v] rest]; [congruence | discriminate]. Qed.

(** ** The canonical string *)

Lemma fold_left_concat {A} (g : A -> str) (l : list A) (d : str) :
  fold_left (fun domain x => domain ++ g x) l d = d ++ concat (map g l).
Proof.
  revert d. induction l as [|x l IH]; intros d; cbn [fold_left map concat].
  - symmetry. apply app_nil_r.
  - rewrite IH, app_assoc. reflexivity.
Qed.

Lemma canonical_string_concat (request : Request) :
  canonical_string request
  = re_sub_http (url request)
    ++ concat (map (fun kv => fst kv ++ snd kv) (sorted (items (form request)))).
Proof. unfold canonical_string. apply fold_left_concat. Qed.

(** Sorted pairs with distinct names ascend strictly by name. *)
Lemma sorted_by_name (l : list (str * str)) :
  NoDup (map fst l) -> StronglySorted tuple_le l ->
  StronglySorted (fun p q => str_ltb (fst p) (fst q) = true) l.
Proof.
  intros N S. induction S as [|x l S IH Hx]; constructor.
  - apply IH. inversion N; assumption.
  - cbn [map] in N. inversion_clear N as [|? ? Hn _].
    rewrite Forall_forall in *. intros y Iy.
    specialize (Hx y Iy). unfold tuple_le, tuple_ltb in Hx.
    apply orb_false_iff in Hx. destruct Hx as [Hx _].
    destruct (str_ltb (fst x) (fst y)) eqn:E; [reflexivity|].
    exfalso. apply Hn. rewrite (str_ltb_total _ _ E Hx).
    apply in_map, Iy.
Qed.

(** ** Rebuilding the URL *)

Lemma strip_prefix_app (p s r : str) : strip_prefix p s = Some r <-> s = p ++ r.
Proof.
  revert s; induction p as [|x p IH]; intros s; cbn [strip_prefix app].
  - split; [intros [= ->]; reflexivity | intros ->; reflexivity].
  - destruct s as [|y s]; [split; discriminate|].
    destruct (Z.eqb_spec x y) as [->|N].
    + rewrite IH. split; [intros ->; reflexivity | intros [= ->]; reflexivity].
    + split; [discriminate | intros [= E _]; congruence].
Qed.

Lemma contains_http_occurs (s : str) :
  contains_http s = true <-> exists a b, s = a ++ lit "http" ++ b.
Proof.
  induction s as [|c s IH].
  - split; [discriminate|]. intros ([|x a] & b & E); discriminate.
  - cbn [contains_http].
    destruct (strip_prefix (lit "http") (c :: s)) as [r|] eqn:P.
    + split; [intros _ | reflexivity].
      exists [], r. apply (proj1 (strip_prefix_app (lit "http") _ _) P).
    + rewrite IH. split.
      * intros (a & b & ->). exists (c :: a), b. reflexivity.
      * intros ([|x a] & b & E).
        -- exfalso. apply (proj2 (strip_prefix_app (lit "http") _ _)) in E.
           congruence.
        -- injection E as _ ->. exists a, b. reflexivity.
Qed.

Lemma re_sub_http_match (rest : str) :
  re_sub_http (lit "http" ++ rest) = lit "https" ++ re_sub_http rest.
Proof. reflexivity. Qed.

(** A text without the pattern is left as it is. *)
Lemma re_sub_http_absent (s : str) : contains_http s = false -> re_sub_http s = s.
Proof.
  induction s as [|c s IH]; [reflexivity|].
  cbn [contains_http].
  destruct (strip_prefix (lit "http") (c :: s)) as [r|] eqn:P; [discriminate|].
  intros H. specialize (IH H).
  assert (re_sub_http (c :: s) = c :: re_sub_http s) as ->;
    [|rewrite IH; reflexivity].
  cbn [re_sub_http].
  destruct s as [|c1 [|c2 [|c3 r4]]]; try reflexivity.
  destruct (str_eqb [c; c1; c2; c3] (lit "http")) eqn:E; [|reflexivity].
  apply str_eqb_eq in E.
  assert (c :: c1 :: c2 :: c3 :: r4 = lit "http" ++ r4) as A
    by (change (c :: c1 :: c2 :: c3 :: r4) with ([c; c1; c2; c3] ++ r4);
        rewrite E; reflexivity).
  apply (proj2 (strip_prefix_app (lit "http") _ _)) in A. congruence.
Qed.

Lemma lstrip_app_chars (chars p s : str) :
  Forall (fun c => existsb (Z.eqb c) chars = true) p ->
  lstrip chars (p ++ s) = lstrip chars s.
Proof.
  induction 1 as [|c p Hc _ IH]; [reflexivity|].
  cbn [app lstrip]. rewrite Hc. exact IH.
Qed.

Lemma lstrip_stops (chars s : str) :
  existsb (fun c => existsb (Z.eqb c) chars) (firstn 1 s) = false ->
  lstrip chars s = s.
Proof.
  destruct s as [|c s]; [reflexivity|].
  cbn [firstn existsb lstrip]. rewrite orb_false_r. intros ->. reflexivity.
Qed.

(** The substitution and the stripping also reach past the scheme. *)
Example re_sub_http_in_path :
  re_sub_http (lit "http://example.com/http-status")
  = lit "https://example.com/https-status".
Proof. vm_compute. reflexivity. Qed.

Example lstrip_into_host :
  lit "https://" ++ lstrip (lit "http://") (lit "http://twilio.example.com/x")
  = lit "https://wilio.example.com/x".
Proof. vm_compute. reflexivity. Qed.

(** ** UTF-8 keeps the order of code points *)

Lemma encode_char_cases (c : Z) (bs : bytes) :
  UTF8.encode_char c = Some bs ->
  (0 <= c < 128 /\ bs = [c])
  \/ (128 <= c < 2048 /\ bs = [192 + c / 64; 128 + c mod 64])
  \/ (2048 <= c < 65536
      /\ bs = [224 + c / 4096; 128 + (c / 64) mod 64; 128 + c mod 64])
  \/ (65536 <= c < 1114112
      /\ bs = [240 + c / 262144; 128 + (c / 4096) mod 64;
               128 + (c / 64) mod 64; 128 + c mod 64]).
Proof.
  unfold UTF8.encode_char.
  destruct (Z.ltb_spec c 0); [discriminate|].
  destruct (Z.ltb_spec c 128); [intros [= <-]; left; split; [lia | reflexivity]|].
  destruct (Z.ltb_spec c 2048);
    [intros [= <-]; right; left; split; [lia | reflexivity]|].
  destruct ((55296 <=? c) && (c <=? 57343)); [discriminate|].
  destruct (Z.ltb_spec c 65536);
    [intros [= <-]; right; right; left; split; [lia | reflexivity]|].
  destruct (Z.ltb_spec c 1114112); [|discriminate].
  intros [= <-]. right; right; right. split; [lia | reflexivity].
Qed.

Ltac lex_bytes :=
  repeat match goal with
    | |- (?a <? ?b) || _ = true =>
        destruct (Z.ltb_spec a b); [reflexivity|]; cbn [orb]
    | |- (?a =? ?b) && _ = true =>
        destruct (Z.eqb_spec a b); cbn [andb];
        [|exfalso; Z.div_mod_to_equations; lia]
    end;
  try (exfalso; Z.div_mod_to_equations; lia).

(** The encodings of two code points differ at a byte where the smaller code
    point has the smaller byte, whatever follows them. *)
Lemma encode_char_lt (c d : Z) (x y s t : bytes) :
  UTF8.encode_char c = Some x -> UTF8.encode_char d = Some y -> c < d ->
  bytes_ltb (x ++ s) (y ++ t) = true.
Proof.
  intros Hc Hd L. unfold bytes_ltb.
  apply encode_char_cases in Hc. apply encode_char_cases in Hd.
  destruct Hc as [[Rc ->] | [[Rc ->] | [[Rc ->] | [Rc ->]]]];
    destruct Hd as [[Rd ->] | [[Rd ->] | [[Rd ->] | [Rd ->]]]];
    cbn [app str_ltb]; lex_bytes.
Qed.

Lemma encode_char_not_nil (c : Z) (x : bytes) :
  UTF8.encode_char c = Some x -> x <> [].
Proof.
  intros H. apply encode_char_cases in H.
  destruct H as [[_ ->] | [[_ ->] | [[_ ->] | [_ ->]]]]; discriminate.
Qed.

Lemma str_ltb_app_same (p a b : list Z) : str_ltb (p ++ a) (p ++ b) = str_ltb a b.
Proof.
  induction p as [|x p IH]; [reflexivity|].
  cbn [app str_ltb]. rewrite Z.ltb_irrefl, Z.eqb_refl, IH. reflexivity.
Qed.

(** Comparing the UTF-8 bytes of two texts is comparing their code points. *)
Lemma encode_order (a b : str) (x y : bytes) :
  UTF8.encode a = Some x -> UTF8.encode b = Some y ->
  bytes_ltb x y = str_ltb a b.
Proof.
  revert b x y. induction a as [|c a IH]; intros [|d b] x y; cbn [UTF8.encode].
  - intros [= <-] [= <-]. reflexivity.
  - intros [= <-].
    destruct (UTF8.encode_char d) as [yd|] eqn:Hd; [|discriminate].
    destruct (UTF8.encode b) as [y'|]; [|discriminate].
    intros [= <-]. apply encode_char_not_nil in Hd.
    destruct yd; [congruence | reflexivity].
  - intros _ [= <-]. unfold bytes_ltb. destruct x; reflexivity.
  - destruct (UTF8.encode_char c) as [xc|] eqn:Hc; [|discriminate].
    destruct (UTF8.encode a) as [x'|] eqn:Ha; [|discriminate].
    destruct (UTF8.encode_char d) as [yd|] eqn:Hd; [|discriminate].
    destruct (UTF8.encode b) as [y'|] eqn:Hb; [|discriminate].
    intros [= <-] [= <-]. cbn [str_ltb].
    destruct (Z.lt_total c d) as [L | [E | L]].
    + rewrite (encode_char_lt _ _ _ _ _ _ Hc Hd L).
      apply Z.ltb_lt in L. rewrite L. reflexivity.
    + subst d. rewrite Hc in Hd. injection Hd as <-.
      unfold bytes_ltb. rewrite str_ltb_app_same.
      rewrite Z.ltb_irrefl, Z.eqb_refl. cbn [orb andb].
      apply (IH b x' y' eq_refl Hb).
    + pose proof (encode_char_lt _ _ _ _ y' x' Hd Hc L) as G.
      unfold bytes_ltb in *. rewrite (str_ltb_asym _ _ G).
      replace (c <? d) with false by (symmetry; apply Z.ltb_ge; lia).
      replace (c =? d) with false by (symmetry; apply Z.eqb_neq; lia).
      reflexivity.
Qed.

(** ** UTF-8 decoding undoes encoding *)

(** The code points that have a UTF-8 form. *)
Lemma encode_char_scalar (c : Z) :
  scalar c <-> exists bs, UTF8.encode_char c = Some bs.
Proof.
  unfold scalar, UTF8.encode_char.
  destruct (Z.ltb_spec c 0); [split; [lia | intros [bs [=]]]|].
  destruct (Z.ltb_spec c 128); [split; [eauto | lia]|].
  destruct (Z.ltb_spec c 2048); [split; [eauto | lia]|].
  destruct (Z.leb_spec 55296 c); destruct (Z.leb_spec c 57343); cbn [andb].
  - split; [lia | intros [bs [=]]].
  - destruct (Z.ltb_spec c 65536); [split; [eauto | lia]|].
    destruct (Z.ltb_spec c 1114112); [split; [eauto | lia]|].
    split; [lia | intros [bs [=]]].
  - destruct (Z.ltb_spec c 65536); [split; [eauto | lia]|]. lia.
  - lia.
Qed.

(** A text has a UTF-8 form exactly when it holds no surrogate. *)
Lemma encode_defined (s : str) :
  Forall scalar s <-> exists bs, UTF8.encode s = Some bs.
Proof.
  induction s as [|c s IH]; cbn [UTF8.encode].
  - split; [eauto | constructor].
  - split.
    + intros H. inversion_clear H as [|? ? Hc Hs].
      apply encode_char_scalar in Hc. destruct Hc as [b ->].
      apply IH in Hs. destruct Hs as [bs ->]. eauto.
    + intros [bs H].
      destruct (UTF8.encode_char c) as [b|] eqn:Hc; [|discriminate].
      destruct (UTF8.encode s) as [bs'|]; [|discriminate].
      constructor; [apply encode_char_scalar | apply IH]; eauto.
Qed.

Ltac settle_comparisons :=
  repeat match goal with
    | |- context [?a =? ?b] =>
        first [ replace (a =? b) with true by (symmetry; apply Z.eqb_eq; lia)
              | replace (a =? b) with false by (symmetry; apply Z.eqb_neq; lia)
              | destruct (Z.eqb_spec a b) ]
    | |- context [?a <=? ?b] =>
        first [ replace (a <=? b) with true by (symmetry; apply Z.leb_le; lia)
              | replace (a <=? b) with false by (symmetry; apply Z.leb_gt; lia) ]
    | |- context [?a <? ?b] =>
        first [ replace (a <? b) with true by (symmetry; apply Z.ltb_lt; lia)
              | replace (a <? b) with false by (symmetry; apply Z.ltb_ge; lia) ]
    end.

(** The digits of a code point in base 64. *)
Lemma digits64 (c : Z) :
  c = 64 * (c / 64) + c mod 64 /\ 0 <= c mod 64 < 64
  /\ c / 64 = 64 * (c / 4096) + (c / 64) mod 64 /\ 0 <= (c / 64) mod 64 < 64
  /\ c / 4096 = 64 * (c / 262144) + (c / 4096) mod 64
  /\ 0 <= (c / 4096) mod 64 < 64.
Proof. Z.div_mod_to_equations. lia. Qed.

Lemma decode_encode_char (c : Z) (bs rest : bytes) :
  UTF8.encode_char c = Some bs ->
  UTF8.decode (bs ++ rest) = option_map (cons c) (UTF8.decode rest).
Proof.
  intros H.
  assert (scalar c) as Sc by (apply encode_char_scalar; eauto).
  unfold scalar in Sc.
  apply encode_char_cases in H.
  destruct (digits64 c) as (D0 & R0 & D1 & R1 & D2 & R2).
  revert H D0 R0 D1 R1 D2 R2.
  generalize (c mod 64) as r0, ((c / 64) mod 64) as r1,
    ((c / 4096) mod 64) as r2.
  generalize (c / 262144) as q3. 
  generalize (c / 4096) as q2. generalize (c / 64) as q1.
  intros q1 q2 q3 r2 r1 r0 H D0 R0 D1 R1 D2 R2.
  destruct H as [[R ->] | [[R ->] | [[R ->] | [R ->]]]].
  - cbn [app UTF8.decode]. unfold UTF8.cont. settle_comparisons.
    cbn [andb]. reflexivity.
  - cbn [app UTF8.decode]. unfold UTF8.cont. settle_comparisons.
    all: cbn [andb]; try (exfalso; lia);
    f_equal; f_equal; lia.
  - cbn [app UTF8.decode]. unfold UTF8.cont. settle_comparisons.
    all: cbn [andb]; try (exfalso; lia);
    f_equal; f_equal; lia.
  - cbn [app UTF8.decode]. unfold UTF8.cont. settle_comparisons.
    all: cbn [andb]; try (exfalso; lia);
    f_equal; f_equal; lia.
Qed.

Lemma decode_encode (s : str) (bs : bytes) :
  UTF8.encode s = Some bs -> UTF8.decode bs = Some s.
Proof.
  revert bs. induction s as [|c s IH]; intros bs; cbn [UTF8.encode].
  - intros [= <-]. reflexivity.
  - destruct (UTF8.encode_char c) as [b|] eqn:Hc; [|discriminate].
    destruct (UTF8.encode s) as [bs'|]; [|discriminate].
    intros [= <-]. rewrite (decode_encode_char _ _ _ Hc), (IH _ eq_refl).
    reflexivity.
Qed.

(** * The claims *)

(** ** C1 *)

(** The decorator has no answer that rejects for a missing body. *)
Lemma decorator_never_no_body
  (v : str -> str -> MultiDict -> str -> bool) (f : M response)
  (tok : option str) (request : Request) :
  decorated_outcome (decorated v f tok request) <> Some RejectedNoBody.
Proof.
  destruct tok as [key|]; [|rewrite decorated_unset; discriminate].
  destruct (UTF8.encode key) as [kb|] eqn:K.
  - rewrite (decorated_outcome_decision _ _ _ _ _ K). unfold decorator_decision.
    destruct (x_twilio_signature request) as [[|c sig]|]; try discriminate.
    destruct (v key _ (form request) (c :: sig)); discriminate.
  - rewrite (decorated_not_encodable _ _ _ _ K). discriminate.
Qed.

(** The decorator reaches its validator as soon as the header has a value. *)
Lemma decorated_calls_validator
  (v : str -> str -> MultiDict -> str -> bool) (f : M response)
  (key : str) (kb : bytes) (request : Request) (c : Z) (sig : str) :
  UTF8.encode key = Some kb ->
  x_twilio_signature request = Some (c :: sig) ->
  existsb is_Validate (trace (decorated v f (Some key) request)) = true.
Proof.
  intros K H. rewrite (decorated_run _ _ _ _ _ K), H. cbv zeta.
  destruct (v key _ (form request) (c :: sig)); reflexivity.
Qed.

(** C1, where it fails: the request [signed_no_fields] carries the header
    and no form field, and the decorator gate does not answer it with
    RejectedNoBody, whatever the library validator and the wrapped view. *)
Lemma decorator_skips_body_rule :
  ~ (exists v f,
       decorated_outcome (decorated v f (Some secret) signed_no_fields)
       = Some RejectedNoBody).
Proof. intros (v & f & H). exact (decorator_never_no_body _ _ _ _ H). Qed.

(** C1, as amended: the inline gate of [/twiml] decides in this order, the
    first rule that applies winning: no header, then no field; a request
    that passes both is canonicalized and handed, with the key, to HMAC.
    The decorator, with a token that is set and has a UTF-8 form, has no
    rule on the body: it rejects a missing or empty header and otherwise
    follows the library validator; whatever the token, it calls the wrapped
    view only when it accepts. *)
Theorem gate_decision_order :
  (forall tok request,
     x_twilio_signature request = None ->
     twiml_outcome (twiml tok request) = Some RejectedNoSignatureHeader)
  /\ (forall tok request sig,
        x_twilio_signature request = Some sig -> form request = [] ->
        twiml_outcome (twiml tok request) = Some RejectedNoBody)
  /\ (forall key request sig kb mb,
        x_twilio_signature request = Some sig -> form request <> [] ->
        UTF8.encode key = Some kb ->
        UTF8.encode (canonical_string request) = Some mb ->
        filter is_HmacNew (trace (twiml (Some key) request)) = [HmacNew kb mb])
  /\ (forall v f key kb request,
        UTF8.encode key = Some kb ->
        decorated_outcome (decorated v f (Some key) request)
        = Some (decorator_decision v key request))
  /\ (forall v f tok request,
        existsb is_Handler (trace (decorated v f tok request)) = true
        <-> exists key kb,
              tok = Some key /\ UTF8.encode key = Some kb
              /\ decorator_decision v key request = Accepted).
Proof.
  split; [intros tok request H; rewrite (twiml_no_header _ _ H); reflexivity|].
  split; [intros tok request sig H F; rewrite (twiml_no_body _ _ _ H F);
          reflexivity|].
  split.
  { intros key request sig kb mb H F K E.
    rewrite (twiml_signs _ _ sig H F), (sign_encodable _ _ _ _ K E).
    reflexivity. }
  split; [exact decorated_outcome_decision | exact decorated_handler].
Qed.

(** The two rules of the inline gate, the call of HMAC and the two rules of
    the decorator, each on a sample request. *)
Lemma gate_decision_order_witness :
  twiml_outcome (twiml (Some secret) unsigned) = Some RejectedNoSignatureHeader
  /\ twiml_outcome (twiml (Some secret) signed_no_fields) = Some RejectedNoBody
  /\ filter is_HmacNew (trace (twiml (Some secret) hook_http))
     = [HmacNew (lit "secret") (lit "https://example.com/hookNamevalue")]
  /\ decorated_outcome (decorated accept_all ok_view (Some secret) empty_header)
     = Some RejectedNoSignatureHeader
  /\ decorated_outcome (decorated accept_all ok_view (Some secret) signed_no_fields)
     = Some Accepted
  /\ existsb is_Handler
       (trace (decorated accept_all ok_view (Some secret) signed_no_fields))
     = true.
Proof.
  destruct gate_decision_order as (A & B & C & D & E).
  split; [exact (A (Some secret) unsigned eq_refl)|].
  split; [exact (B (Some secret) signed_no_fields _ eq_refl eq_refl)|].
  split.
  { apply (C secret hook_http (lit "bVC8YmH56Aj38JxyqIXPLvKpZQo=")
             (lit "secret") (lit "https://example.com/hookNamevalue"));
      [reflexivity | discriminate | reflexivity | reflexivity]. }
  split; [exact (D accept_all ok_view secret (lit "secret") empty_header eq_refl)|].
  split; [exact (D accept_all ok_view secret (lit "secret") signed_no_fields
                   eq_refl)|].
  apply (E accept_all ok_view (Some secret) signed_no_fields).
  exists secret, (lit "secret"). repeat split.
Defined.

(** ** C4 *)

(** C4, where it fails: on [signed_no_fields] the decorator neither answers
    RejectedNoBody nor stops before its validator, whatever the validator
    and the wrapped view. *)
Lemma decorator_validates_without_fields :
  ~ (exists v f,
       decorated_outcome (decorated v f (Some secret) signed_no_fields)
       = Some RejectedNoBody
       \/ existsb is_Validate
            (trace (decorated v f (Some secret) signed_no_fields))
          = false).
Proof.
  intros (v & f & [H | H]).
  - exact (decorator_never_no_body _ _ _ _ H).
  - erewrite (decorated_calls_validator v f secret (lit "secret")) in H
      by reflexivity.
    discriminate H.
Qed.

(** C4, as amended: on a request with the signature header and no form
    field the inline gate of [/twiml] answers RejectedNoBody and has not
    called the signer; the decorator has no such rule: with a token that is
    set and has a UTF-8 form it hands the request, empty form included, to
    the library validator, whose verdict decides. *)
Theorem no_fields_rejected_before_signing
  (tok : option str) (request : Request) (sig : str) :
  x_twilio_signature request = Some sig -> form request = [] ->
  twiml_outcome (twiml tok request) = Some RejectedNoBody
  /\ existsb is_HmacNew (trace (twiml tok request)) = false
  /\ (forall v f key kb, UTF8.encode key = Some kb -> sig <> [] ->
        let https_url := lit "https://" ++ lstrip (lit "http://") (url request) in
        In (Validate https_url [] sig) (trace (decorated v f (Some key) request))
        /\ decorated_outcome (decorated v f (Some key) request)
           = Some (if v key https_url [] sig
                   then Accepted else RejectedMismatch)).
Proof.
  intros H F. rewrite (twiml_no_body _ _ _ H F).
  split; [reflexivity|]. split; [reflexivity|].
  intros v f key kb K N https_url.
  rewrite (decorated_outcome_decision _ _ _ _ _ K), (decorated_run _ _ _ _ _ K).
  unfold decorator_decision. rewrite H, F.
  destruct sig as [|c sig]; [congruence|].
  cbv zeta. fold https_url.
  destruct (v key https_url [] (c :: sig)); split;
    try reflexivity; left; reflexivity.
Qed.

(** On [signed_no_fields] the inline gate stops before the signer, and the
    decorator with a validator that accepts everything accepts. *)
Lemma no_fields_rejected_before_signing_witness :
  twiml_outcome (twiml (Some secret) signed_no_fields) = Some RejectedNoBody
  /\ existsb is_HmacNew (trace (twiml (Some secret) signed_no_fields)) = false
  /\ decorated_outcome (decorated accept_all ok_view (Some secret) signed_no_fields)
     = Some Accepted.
Proof.
  destruct (no_fields_rejected_before_signing (Some secret) signed_no_fields
              (lit "bVC8YmH56Aj38JxyqIXPLvKpZQo=") eq_refl eq_refl)
    as (A & B & C).
  split; [exact A|]. split; [exact B|].
  destruct (C accept_all ok_view secret (lit "secret") eq_refl) as [_ D];
    [discriminate | exact D].
Defined.

(** ** C8 *)

(** The comparison of the computed with the claimed signature ([!=] on two
    [str]) is modelled by its result, [str_eqb], which is exact equality
    ([str_eqb_eq]); the time the comparison takes is not part of the model. *)

(** ** C9 *)

(** C9, where it fails: whatever the library validator and the wrapped view,
    the two gates disagree on [signed_no_fields]: the inline gate rejects
    for the missing body, the decorator cannot. *)
Lemma gates_disagree :
  ~ (exists v f,
       twiml_outcome (twiml (Some secret) signed_no_fields)
       = decorated_outcome (decorated v f (Some secret) signed_no_fields)).
Proof.
  intros (v & f & H).
  apply (decorator_never_no_body v f (Some secret) signed_no_fields).
  rewrite <- H. vm_compute. reflexivity.
Qed.

(** C9, as amended: on a request without the signature header both gates
    reject for the missing signature, for every key that has a UTF-8 form;
    elsewhere they need not agree: the decorator never rejects for a
    missing body, and it takes a header sent with an empty value for a
    missing one, which the inline gate never does. *)
Theorem gates_agree_without_header
  (v : str -> str -> MultiDict -> str -> bool) (f : M response)
  (key : str) (kb : bytes) (request : Request) :
  UTF8.encode key = Some kb ->
  x_twilio_signature request = None ->
  twiml_outcome (twiml (Some key) request) = Some RejectedNoSignatureHeader
  /\ decorated_outcome (decorated v f (Some key) request)
     = Some RejectedNoSignatureHeader
  /\ (forall tok request',
        decorated_outcome (decorated v f tok request') <> Some RejectedNoBody)
  /\ (forall tok request',
        x_twilio_signature request' = Some [] ->
        decorated_outcome (decorated v f (Some key) request')
        = Some RejectedNoSignatureHeader
        /\ twiml_outcome (twiml tok request')
           <> Some RejectedNoSignatureHeader).
Proof.
  intros K H. rewrite (twiml_no_header _ _ H).
  rewrite (decorated_outcome_decision _ _ _ _ _ K).
  unfold decorator_decision at 1. rewrite H.
  split; [reflexivity|]. split; [reflexivity|].
  split; [intros tok request'; apply decorator_never_no_body|].
  intros tok request' E.
  rewrite (decorated_outcome_decision _ _ _ _ _ K).
  unfold decorator_decision. rewrite E. split; [reflexivity|].
  destruct (form request') as [|kv rest] eqn:F.
  - rewrite (twiml_no_body _ _ _ E F). discriminate.
  - rewrite (twiml_signed _ _ _ E) by congruence. discriminate.
Qed.

(** Both gates on [unsigned], and the two of them on [empty_header]. *)
Lemma gates_agree_without_header_witness :
  twiml_outcome (twiml (Some secret) unsigned) = Some RejectedNoSignatureHeader
  /\ decorated_outcome (decorated accept_all ok_view (Some secret) unsigned)
     = Some RejectedNoSignatureHeader
  /\ decorated_outcome (decorated accept_all ok_view (Some secret) empty_header)
     = Some RejectedNoSignatureHeader
  /\ twiml_outcome (twiml (Some secret) empty_header)
     <> Some RejectedNoSignatureHeader.
Proof.
  destruct (gates_agree_without_header accept_all ok_view secret (lit "secret")
              unsigned eq_refl eq_refl)
    as (A & B & _ & D).
  split; [exact A|]. split; [exact B|].
  exact (D (Some secret) empty_header eq_refl).
Defined.

(** ** C2 *)

(** C2, where it fails: with the request URL [https://example.com/hook] the
    canonical string is not [https://example.com/hookNamevalue]; the
    substitution has turned the scheme into [httpss]. *)
Lemma known_vector_https_url :
  canonical_string hook_https <> lit "https://example.com/hookNamevalue".
Proof. intros H. vm_compute in H. discriminate H. Qed.

(** C2, as amended: for the key [secret], the request URL received as
    [http://example.com/hook] and the single field Name=value, the canonical
    string is [https://example.com/hookNamevalue], and the UTF-8 bytes of
    that string and of that key are what the gate hands to HMAC with
    SHA-1. *)
Theorem known_vector :
  canonical_string hook_http = lit "https://example.com/hookNamevalue"
  /\ UTF8.encode secret = Some (lit "secret")
  /\ UTF8.encode (canonical_string hook_http)
     = Some (lit "https://example.com/hookNamevalue")
  /\ filter is_HmacNew (trace (twiml (Some secret) hook_http))
     = [HmacNew (lit "secret") (lit "https://example.com/hookNamevalue")].
Proof.
  assert (canonical_string hook_http = lit "https://example.com/hookNamevalue")
    as C by (vm_compute; reflexivity).
  assert (UTF8.encode secret = Some (lit "secret")) as K
    by (vm_compute; reflexivity).
  assert (UTF8.encode (canonical_string hook_http)
          = Some (lit "https://example.com/hookNamevalue")) as E
    by (vm_compute; reflexivity).
  split; [exact C|]. split; [exact K|]. split; [exact E|].
  rewrite (twiml_signs (Some secret) hook_http
             (lit "bVC8YmH56Aj38JxyqIXPLvKpZQo=") eq_refl)
    by discriminate.
  rewrite (sign_encodable _ _ _ _ K E). reflexivity.
Qed.

(** ** C3 *)

(** C3, where it fails: a URL received with the https scheme does not come
    out with the https scheme and the rest unchanged, neither from the
    inline gate nor from the decorator. *)
Lemma https_url_not_kept :
  ~ (re_sub_http (lit "https://example.com/hook")
     = lit "https://example.com/hook"
     \/ lit "https://" ++ lstrip (lit "http://") (lit "https://example.com/hook")
        = lit "https://example.com/hook").
Proof. intros [H | H]; vm_compute in H; discriminate H. Qed.

(** C3, as amended: for a URL received with the http scheme, [http] followed
    by a rest in which [http] does not occur again, the inline gate yields
    [https] followed by that rest unchanged; for a URL [http://] followed by
    a rest that does not begin with one of the characters of [http://], the
    decorator yields [https://] followed by that rest unchanged. *)
Theorem scheme_forced_on_http_urls :
  (forall rest,
     contains_http rest = false ->
     re_sub_http (lit "http" ++ rest) = lit "https" ++ rest)
  /\ (forall rest,
        existsb (fun c => existsb (Z.eqb c) (lit "http://")) (firstn 1 rest)
        = false ->
        lit "https://" ++ lstrip (lit "http://") (lit "http://" ++ rest)
        = lit "https://" ++ rest).
Proof.
  split.
  - intros rest H.
    rewrite re_sub_http_match, (re_sub_http_absent _ H). reflexivity.
  - intros rest S.
    rewrite lstrip_app_chars by (repeat constructor).
    rewrite (lstrip_stops _ _ S). reflexivity.
Qed.

Lemma scheme_forced_on_http_urls_witness :
  re_sub_http (lit "http://example.com/hook?a=1")
  = lit "https://example.com/hook?a=1"
  /\ lit "https://" ++ lstrip (lit "http://") (lit "http://example.com/hook?a=1")
     = lit "https://example.com/hook?a=1".
Proof.
  destruct scheme_forced_on_http_urls as [A B].
  split.
  - exact (A (lit "://example.com/hook?a=1") eq_refl).
  - exact (B (lit "example.com/hook?a=1") eq_refl).
Defined.

(** ** C5 *)

(** C5, the code at a sample input: for the key [secret] and the canonical
    string [https://example.com/hookNamevalue] the signer calls HMAC on
    their UTF-8 bytes and then raises AttributeError on [mac.__dict__]; it
    has no output, where the padded base64 text of the HMAC-SHA-1 digest is
    [bVC8YmH56Aj38JxyqIXPLvKpZQo=]. *)
Theorem signer_raises_on_known_vector :
  sign (Some secret) (lit "https://example.com/hookNamevalue")
  = ([HmacNew (lit "secret") (lit "https://example.com/hookNamevalue")],
     Raise AttributeError)
  /\ signature (lit "secret") (lit "https://example.com/hookNamevalue")
     = lit "bVC8YmH56Aj38JxyqIXPLvKpZQo=".
Proof.
  split.
  - apply sign_encodable; reflexivity.
  - vm_compute. reflexivity.
Qed.

(** ** C10 *)

(** C10, the code at a sample input: on [hook_http], which carries the right
    signature, the gate prints the header, calls HMAC and lets
    AttributeError escape; no signature is encoded, stripped or compared,
    where the base64 text of the digest has 28 characters and is what the
    header holds. *)
Theorem gate_raises_before_comparison :
  twiml (Some secret) hook_http
  = ([Print (PStr (lit "X-Twilio-Signature: bVC8YmH56Aj38JxyqIXPLvKpZQo="));
      HmacNew (lit "secret") (lit "https://example.com/hookNamevalue")],
     Raise AttributeError)
  /\ length (signature (lit "secret") (lit "https://example.com/hookNamevalue"))
     = 28%nat
  /\ x_twilio_signature hook_http
     = Some (strip (signature (lit "secret")
                      (lit "https://example.com/hookNamevalue"))).
Proof.
  split.
  - rewrite (twiml_signs (Some secret) hook_http
               (lit "bVC8YmH56Aj38JxyqIXPLvKpZQo=") eq_refl)
      by discriminate.
    rewrite (sign_encodable secret _ (lit "secret")
               (lit "https://example.com/hookNamevalue"))
      by (vm_compute; reflexivity).
    reflexivity.
  - split; [apply signature_length|].
    rewrite (strip_id _ (signature_nonspace _ _)). vm_compute. reflexivity.
Qed.

(** ** C6 *)

(** The canonical string is what the substitution makes of the URL,
    followed by name and value of every field of the form mapping, the
    fields in strictly ascending order of their names. *)
Lemma canonical_string_fields (request : Request) :
  form request <> [] ->
  exists fields : list (str * str),
    canonical_string request
    = re_sub_http (url request)
      ++ concat (map (fun kv => fst kv ++ snd kv) fields)
    /\ fields <> []
    /\ (forall k v, In (k, v) fields <-> getitem (form request) k = Some v)
    /\ StronglySorted (fun p q => str_ltb (fst p) (fst q) = true) fields
    /\ StronglySorted
         (fun p q => forall x y,
            UTF8.encode (fst p) = Some x -> UTF8.encode (fst q) = Some y ->
            bytes_ltb x y = true)
         fields.
Proof.
  intros F. exists (sorted (items (form request))).
  assert (StronglySorted (fun p q => str_ltb (fst p) (fst q) = true)
            (sorted (items (form request)))) as S.
  { apply sorted_by_name; [|apply sorted_sorted].
    eapply Permutation_NoDup; [|apply items_names_nodup].
    apply Permutation_map. symmetry. apply sorted_perm. }
  split; [apply canonical_string_concat|].
  split.
  { intros E. apply (items_not_nil _ F).
    pose proof (sorted_perm (items (form request))) as P.
    rewrite E in P. apply Permutation_nil, P. }
  split.
  { intros k v. rewrite <- in_items. split; apply Permutation_in;
      [apply sorted_perm | symmetry; apply sorted_perm]. }
  split; [exact S|].
  clear - S. induction S as [|p l S IH Hp]; constructor; [exact IH|].
  eapply Forall_impl; [|exact Hp].
  intros q Hq x y Hx Hy. rewrite (encode_order _ _ _ _ Hx Hy). exact Hq.
Qed.

(** C6, where it fails: the request [https_fields_ba] has two fields and
    the URL [https://example.com/hook], already scheme-normalized, and its
    canonical string is not that URL followed by fields, whatever they
    are: the substitution has made [httpss] of the scheme. *)
Lemma canonical_string_https_url :
  ~ (exists fields : list (str * str),
       canonical_string https_fields_ba
       = lit "https://example.com/hook"
         ++ concat (map (fun kv => fst kv ++ snd kv) fields)).
Proof. intros (fields & H). vm_compute in H. discriminate H. Qed.

(** C6, as amended: for a request with a field whose URL is received with
    the http scheme, [http] followed by a rest in which [http] does not
    occur again, the canonical string is [https] and that rest followed,
    with nothing in between, by name then value of every field of the form
    mapping (each name once, with the value the form holds for it, as
    received), the fields taken in strictly ascending order of their names:
    code point by code point, which is byte by byte on their UTF-8 forms,
    capitals before small letters. *)
Theorem canonical_string_sorted_fields (request : Request) (rest : str) :
  url request = lit "http" ++ rest -> contains_http rest = false ->
  form request <> [] ->
  exists fields : list (str * str),
    canonical_string request
    = lit "https" ++ rest
      ++ concat (map (fun kv => fst kv ++ snd kv) fields)
    /\ fields <> []
    /\ (forall k v, In (k, v) fields <-> getitem (form request) k = Some v)
    /\ StronglySorted (fun p q => str_ltb (fst p) (fst q) = true) fields
    /\ StronglySorted
         (fun p q => forall x y,
            UTF8.encode (fst p) = Some x -> UTF8.encode (fst q) = Some y ->
            bytes_ltb x y = true)
         fields.
Proof.
  intros U H F. destruct (canonical_string_fields request F) as (fields & C & R).
  exists fields. split; [|exact R].
  rewrite C, U, re_sub_http_match, (re_sub_http_absent _ H), <- app_assoc.
  reflexivity.
Qed.

Lemma canonical_string_sorted_fields_witness :
  exists fields : list (str * str),
    canonical_string unsorted_fields
    = lit "https" ++ lit "://example.com/hook"
      ++ concat (map (fun kv => fst kv ++ snd kv) fields)
    /\ StronglySorted (fun p q => str_ltb (fst p) (fst q) = true) fields.
Proof.
  destruct (canonical_string_sorted_fields unsorted_fields
              (lit "://example.com/hook"))
    as (l & A & _ & _ & B & _).
  - reflexivity.
  - reflexivity.
  - discriminate.
  - exists l. split; [exact A | exact B].
Defined.

Example canonical_string_unsorted_fields :
  canonical_string unsorted_fields = lit "https://example.com/hookZ1a0b2".
Proof. vm_compute. reflexivity. Qed.

(** ** C7 *)

(** Of a name sent twice the gate reads the value sent first, so the
    canonical strings of [repeated_12] and [repeated_21] differ; the form
    mapping of the specification has every name once. *)
Example repeated_name_first_value :
  Permutation (form repeated_12) (form repeated_21)
  /\ canonical_string repeated_12 <> canonical_string repeated_21.
Proof.
  split; [apply perm_swap|]. intros H. vm_compute in H. discriminate H.
Qed.

(** C7: for two requests with the same URL, the same claimed signature and
    the same name/value pairs in different wire orders, every name
    occurring once as in the form mapping of the specification, the
    canonical strings are the same and so is all the gate does and
    answers. *)
Theorem field_order_irrelevant (tok : option str) (r1 r2 : Request) :
  url r1 = url r2 ->
  x_twilio_signature r1 = x_twilio_signature r2 ->
  NoDup (map fst (form r1)) ->
  Permutation (form r1) (form r2) ->
  canonical_string r1 = canonical_string r2
  /\ twiml tok r1 = twiml tok r2
  /\ twiml_outcome (twiml tok r1) = twiml_outcome (twiml tok r2).
Proof.
  intros U S N P.
  assert (canonical_string r1 = canonical_string r2) as C.
  { unfold canonical_string. rewrite U. f_equal.
    rewrite (items_nodup _ N).
    rewrite (items_nodup (form r2))
      by (eapply Permutation_NoDup; [apply Permutation_map; exact P | exact N]).
    apply sorted_permutation, P. }
  assert (twiml tok r1 = twiml tok r2) as T.
  { unfold twiml, headers_getitem. rewrite S, C.
    destruct (form r1) as [|kv1 l1]; destruct (form r2) as [|kv2 l2];
      try reflexivity.
    - apply Permutation_nil in P. discriminate.
    - symmetry in P. apply Permutation_nil in P. discriminate. }
  split; [exact C|]. split; [exact T|]. rewrite T. reflexivity.
Qed.

Lemma field_order_irrelevant_witness :
  canonical_string fields_ab = canonical_string fields_ba
  /\ twiml (Some secret) fields_ab = twiml (Some secret) fields_ba.
Proof.
  destruct (field_order_irrelevant (Some secret) fields_ab fields_ba
              eq_refl eq_refl) as (A & B & _).
  - repeat constructor; cbn; intuition discriminate.
  - apply perm_swap.
  - split; assumption.
Defined.

(** * Further properties of the gates *)

(** The inline gate reads a request through its header, through whether it
    has a field, and through its canonical string. *)
Lemma twiml_ext (tok : option str) (r1 r2 : Request) :
  x_twilio_signature r1 = x_twilio_signature r2 ->
  (form r1 = [] <-> form r2 = []) ->
  canonical_string r1 = canonical_string r2 ->
  twiml tok r1 = twiml tok r2.
Proof.
  intros H F C. unfold twiml, headers_getitem. rewrite H, C.
  destruct (form r1) as [|kv1 l1]; destruct (form r2) as [|kv2 l2];
    try reflexivity.
  - destruct F as [F _]. specialize (F eq_refl). discriminate.
  - destruct F as [_ F]. specialize (F eq_refl). discriminate.
Qed.

(** X1: with no token configured the inline gate accepts nothing and never
    reaches HMAC; a request with the header and a field makes it raise
    TypeError. *)
Theorem unset_token_fails_closed (request : Request) :
  twiml_outcome (twiml None request) <> Some Accepted
  /\ existsb is_HmacNew (trace (twiml None request)) = false
  /\ (forall sig,
        x_twilio_signature request = Some sig -> form request <> [] ->
        answer (twiml None request) = inr TypeError).
Proof.
  destruct (x_twilio_signature request) as [sig|] eqn:H.
  - destruct (form request) as [|kv rest] eqn:F.
    + rewrite (twiml_no_body _ _ _ H F).
      split; [discriminate|]. split; [reflexivity | congruence].
    + rewrite (twiml_signs _ _ sig H) by congruence.
      rewrite sign_no_token.
      split; [discriminate|]. split; [reflexivity|]. reflexivity.
  - rewrite (twiml_no_header _ _ H).
    split; [discriminate|]. split; [reflexivity | discriminate].
Qed.

Lemma unset_token_fails_closed_witness :
  answer (twiml None hook_http) = inr TypeError.
Proof.
  destruct (unset_token_fails_closed hook_http) as (_ & _ & T).
  apply (T (lit "bVC8YmH56Aj38JxyqIXPLvKpZQo=")); [reflexivity | discriminate].
Defined.

(** X2: a request that passes the two rules, with a token and a canonical
    string that have UTF-8 forms, is never decided: whatever the header
    holds, the right signature included, the inline gate calls HMAC once,
    on the bytes of the token and of the canonical string, and lets
    AttributeError escape. *)
Theorem signed_request_never_decided
  (key : str) (request : Request) (sig : str) (kb mb : bytes) :
  x_twilio_signature request = Some sig -> form request <> [] ->
  UTF8.encode key = Some kb ->
  UTF8.encode (canonical_string request) = Some mb ->
  answer (twiml (Some key) request) = inr AttributeError
  /\ twiml_outcome (twiml (Some key) request) = None
  /\ filter is_HmacNew (trace (twiml (Some key) request)) = [HmacNew kb mb].
Proof.
  intros H F K E.
  rewrite (twiml_signs _ _ sig H F), (sign_encodable _ _ _ _ K E).
  repeat split.
Qed.

Lemma signed_request_never_decided_witness :
  answer (twiml (Some secret) hook_http) = inr AttributeError
  /\ twiml_outcome (twiml (Some secret) hook_http) = None
  /\ filter is_HmacNew (trace (twiml (Some secret) hook_http))
     = [HmacNew (lit "secret") (lit "https://example.com/hookNamevalue")].
Proof.
  apply (signed_request_never_decided secret hook_http
           (lit "bVC8YmH56Aj38JxyqIXPLvKpZQo=")
           (lit "secret") (lit "https://example.com/hookNamevalue"));
    [reflexivity | discriminate | reflexivity | reflexivity].
Defined.

(** X3: the canonical string does not mark where a name ends and its value
    begins: whatever the token, the URL and the header, the request with the
    single field [k ++ x] = [v] and the one with the single field
    [k] = [x ++ v] are treated alike, prints and answer included. *)
Theorem name_value_boundary_unmarked
  (tok : option str) (u : str) (h : option str) (k x v : str) :
  twiml tok {| url := u; x_twilio_signature := h; form := [(k ++ x, v)] |}
  = twiml tok {| url := u; x_twilio_signature := h; form := [(k, x ++ v)] |}.
Proof.
  apply twiml_ext; cbn [x_twilio_signature form].
  - reflexivity.
  - split; discriminate.
  - unfold canonical_string. cbn [url form items filter sorted insert fold_left fst snd].
    rewrite <- app_assoc. reflexivity.
Qed.

Lemma sorted_nil_inv (l : list (str * str)) : sorted l = [] -> l = [].
Proof.
  intros E. pose proof (sorted_perm l) as P. rewrite E in P.
  apply Permutation_nil, P.
Qed.

Lemma sorted_singleton (kv : str * str) : sorted [kv] = [kv].
Proof. reflexivity. Qed.

(** X4: nor does it mark where one field ends and the next begins: a
    request is treated like the request whose only field has the first name
    in sorted order and, as its value, all that follows that name in the
    canonical string. *)
Theorem fields_fold_into_one
  (tok : option str) (request : Request) (k v : str) (rest : list (str * str)) :
  sorted (items (form request)) = (k, v) :: rest ->
  twiml tok
    (with_form request
       [(k, v ++ concat (map (fun kv => fst kv ++ snd kv) rest))])
  = twiml tok request.
Proof.
  intros S. apply twiml_ext; cbn [with_form x_twilio_signature form].
  - reflexivity.
  - split; [discriminate|].
    intros F. rewrite F in S. discriminate S.
  - rewrite !canonical_string_concat. cbn [with_form url form].
    rewrite S. cbn [items filter sorted insert map concat fst snd].
    rewrite app_nil_r, <- app_assoc. reflexivity.
Qed.

Lemma fields_fold_into_one_witness :
  twiml (Some secret)
    (with_form fields_ba [(lit "a", lit "1" ++ lit "b" ++ lit "2" ++ [])])
  = twiml (Some secret) fields_ba.
Proof.
  apply (fields_fold_into_one (Some secret) fields_ba (lit "a") (lit "1")
           [(lit "b", lit "2")]).
  vm_compute. reflexivity.
Defined.

Lemma items_cons (k v : str) (l : MultiDict) :
  items ((k, v) :: l) = (k, v) :: filter (other_name k) (items l).
Proof. reflexivity. Qed.

Lemma filter_filter_comm {A} (p q : A -> bool) (l : list A) :
  filter p (filter q l) = filter q (filter p l).
Proof.
  induction l as [|x l IH]; [reflexivity|].
  cbn [filter]. destruct (q x) eqn:Q; destruct (p x) eqn:P;
    cbn [filter]; rewrite ?Q, ?P, IH; reflexivity.
Qed.

Lemma filter_idem {A} (p : A -> bool) (l : list A) :
  filter p (filter p l) = filter p l.
Proof.
  induction l as [|x l IH]; [reflexivity|].
  cbn [filter]. destruct (p x) eqn:P; cbn [filter]; rewrite ?P, IH; reflexivity.
Qed.

(** Dropping a name commutes with [items]. *)
Lemma items_filter (k : str) (l : MultiDict) :
  filter (other_name k) (items l) = items (filter (other_name k) l).
Proof.
  induction l as [|[k0 v0] l IH]; [reflexivity|].
  rewrite items_cons. cbn [filter].
  assert (other_name k (k0, v0) = negb (str_eqb k k0)) as O by reflexivity.
  rewrite O. destruct (str_eqb k k0) eqn:E; cbn [negb].
  - apply str_eqb_eq in E; subst k0. rewrite filter_idem. exact IH.
  - rewrite items_cons, <- IH. f_equal. apply filter_filter_comm.
Qed.

(** A value sent under a name that was already sent is not read. *)
Lemma items_later_value (a b : MultiDict) (k v : str) :
  In k (map fst a) -> items (a ++ (k, v) :: b) = items (a ++ b).
Proof.
  induction a as [|[k0 v0] a IH]; [contradiction|].
  cbn [map fst In app]. intros I. rewrite !items_cons. f_equal.
  destruct (str_eqb k0 k) eqn:E.
  - apply str_eqb_eq in E; subst k0.
    rewrite !items_filter, !filter_app. cbn [filter].
    assert (other_name k (k, v) = false) as O
      by (unfold other_name; cbn [fst]; rewrite str_eqb_refl; reflexivity).
    rewrite O. reflexivity.
  - apply str_eqb_neq in E. destruct I as [I | I]; [congruence|].
    rewrite (IH I). reflexivity.
Qed.

(** X5: a pair sent under a name that occurs earlier in the body is ignored:
    with or without it the inline gate calls, prints and answers the
    same. *)
Theorem later_values_ignored
  (tok : option str) (request : Request) (a b : MultiDict) (k v : str) :
  form request = a ++ b -> In k (map fst a) ->
  twiml tok (with_form request (a ++ (k, v) :: b)) = twiml tok request.
Proof.
  intros F I. apply twiml_ext; cbn [with_form x_twilio_signature form].
  - reflexivity.
  - rewrite F. destruct a as [|p a]; [contradiction|]. split; discriminate.
  - unfold canonical_string. cbn [with_form url form].
    rewrite F, (items_later_value _ _ _ _ I). reflexivity.
Qed.

Lemma later_values_ignored_witness :
  twiml (Some secret)
    (with_form hook_http ([(lit "Name", lit "value")] ++ [(lit "Name", lit "other")]))
  = twiml (Some secret) hook_http.
Proof.
  apply (later_values_ignored (Some secret) hook_http
           [(lit "Name", lit "value")] [] (lit "Name") (lit "other")).
  - reflexivity.
  - left. reflexivity.
Defined.

(** ** The rebuilt URLs *)

Lemma lstrip_length (chars s : str) :
  (length (lstrip chars s) <= length s)%nat.
Proof.
  induction s as [|c s IH]; [reflexivity|].
  cbn [lstrip]. destruct (existsb (Z.eqb c) chars); cbn [length]; lia.
Qed.

(** X6: the decorator hands the validator [https://] followed by what the
    request URL has after [http://] exactly when that rest does not begin
    with one of the characters h, t, p, colon, slash; when it does (a host
    such as [twilio.example.com]) the URL handed over is shorter. *)
Theorem decorator_url_exact_iff (rest : str) :
  lit "https://" ++ lstrip (lit "http://") (lit "http://" ++ rest)
  = lit "https://" ++ rest
  <-> existsb (fun c => existsb (Z.eqb c) (lit "http://")) (firstn 1 rest)
      = false.
Proof.
  rewrite lstrip_app_chars by (repeat constructor).
  split.
  - intros E. apply app_inv_head in E.
    destruct rest as [|c rest]; [reflexivity|].
    cbn [firstn existsb]. rewrite orb_false_r.
    destruct (existsb (Z.eqb c) (lit "http://")) eqn:X; [|reflexivity].
    exfalso. cbn [lstrip] in E. rewrite X in E.
    pose proof (lstrip_length (lit "http://") rest) as L.
    rewrite E in L. cbn [length] in L. lia.
  - intros S. rewrite (lstrip_stops _ _ S). reflexivity.
Qed.

Lemma decorator_url_exact_iff_witness :
  lit "https://" ++ lstrip (lit "http://") (lit "http://" ++ lit "example.com/hook")
  = lit "https://" ++ lit "example.com/hook".
Proof.
  apply (proj2 (decorator_url_exact_iff (lit "example.com/hook"))). reflexivity.
Defined.

Lemma re_sub_http_cons (c : Z) (s : str) :
  strip_prefix (lit "http") (c :: s) = None ->
  re_sub_http (c :: s) = c :: re_sub_http s.
Proof.
  intros P. cbn [re_sub_http].
  destruct s as [|c1 [|c2 [|c3 r4]]]; try reflexivity.
  destruct (str_eqb [c; c1; c2; c3] (lit "http")) eqn:E; [|reflexivity].
  apply str_eqb_eq in E.
  assert (c :: c1 :: c2 :: c3 :: r4 = lit "http" ++ r4) as A
    by (change (c :: c1 :: c2 :: c3 :: r4) with ([c; c1; c2; c3] ++ r4);
        rewrite E; reflexivity).
  apply (proj2 (strip_prefix_app (lit "http") _ _)) in A. congruence.
Qed.

(** The substitution never shortens a text, and lengthens one that holds the
    pattern. *)
Lemma re_sub_http_length (n : nat) (s : str) :
  (length s <= n)%nat ->
  (length s <= length (re_sub_http s))%nat
  /\ (contains_http s = true -> (length s < length (re_sub_http s))%nat).
Proof.
  revert s. induction n as [|n IH]; intros s L.
  - destruct s; [|cbn [length] in L; lia].
    split; [reflexivity | discriminate].
  - destruct s as [|c s]; [split; [reflexivity | discriminate]|].
    cbn [contains_http].
    destruct (strip_prefix (lit "http") (c :: s)) as [r|] eqn:P.
    + apply (proj1 (strip_prefix_app (lit "http") _ _)) in P.
      rewrite P, re_sub_http_match, !length_app.
      assert (length r <= n)%nat as Lr
        by (rewrite P, length_app in L; cbn [length] in L;
            change (length (lit "http")) with 4%nat in L; lia).
      destruct (IH r Lr) as [G _].
      change (length (lit "http")) with 4%nat.
      change (length (lit "https")) with 5%nat. lia.
    + rewrite (re_sub_http_cons _ _ P). cbn [length].
      cbn [length] in L. destruct (IH s ltac:(lia)) as [G1 G2].
      split; [lia|]. intros C. specialize (G2 C). lia.
Qed.

(** X7: the inline gate's substitution leaves a URL as it is exactly when
    [http] does not occur in it; since every request URL begins with
    [http], none is signed as received. *)
Theorem substitution_keeps_only_http_free (s : str) :
  re_sub_http s = s <-> contains_http s = false.
Proof.
  split.
  - intros E. destruct (contains_http s) eqn:C; [|reflexivity].
    destruct (re_sub_http_length (length s) s (le_n _)) as [_ G].
    specialize (G C). rewrite E in G. lia.
  - apply re_sub_http_absent.
Qed.

Lemma substitution_keeps_only_http_free_witness :
  re_sub_http (lit "ftp://example.com/hook") = lit "ftp://example.com/hook".
Proof.
  apply (proj2 (substitution_keeps_only_http_free (lit "ftp://example.com/hook"))).
  reflexivity.
Defined.

(** X8: for every request whose URL is received with the https scheme the
    canonical string begins with [httpss], whatever the rest of the URL and
    the form. *)
Theorem https_url_signed_as_httpss (request : Request) (rest : str) :
  url request = lit "https" ++ rest ->
  exists tail, canonical_string request = lit "httpss" ++ tail.
Proof.
  intros U. rewrite canonical_string_concat, U.
  change (lit "https" ++ rest) with (lit "http" ++ 115 :: rest).
  rewrite re_sub_http_match.
  destruct (strip_prefix (lit "http") (115 :: rest)) as [r|] eqn:P.
  - apply (proj1 (strip_prefix_app (lit "http") _ _)) in P. discriminate P.
  - rewrite (re_sub_http_cons _ _ P).
    eexists. change (lit "https" ++ 115 :: re_sub_http rest)
      with (lit "httpss" ++ re_sub_http rest).
    rewrite <- app_assoc. reflexivity.
Qed.

Lemma https_url_signed_as_httpss_witness :
  exists tail, canonical_string hook_https = lit "httpss" ++ tail.
Proof.
  exact (https_url_signed_as_httpss hook_https (lit "://example.com/hook")
           eq_refl).
Defined.

(** ** What the gates do and answer *)

(** X9: the decorator leaves an accepted call to the wrapped view alone: it
    answers what the view answers and the view's events follow the two of
    the decorator; when it does not accept (a rejection, a token that is
    unset or has no UTF-8 form) the view is not run at all: events and
    answer are the same whatever the view. *)
Theorem decorated_runs_view_untouched
  (v : str -> str -> MultiDict -> str -> bool) (tok : option str)
  (request : Request) :
  (forall f key kb,
     tok = Some key -> UTF8.encode key = Some kb ->
     decorator_decision v key request = Accepted ->
     answer (decorated v f tok request) = answer f
     /\ exists uri sig,
          trace (decorated v f tok request)
          = Validate uri (form request) sig :: Handler :: trace f)
  /\ (forall f1 f2,
        (forall key kb,
           tok = Some key -> UTF8.encode key = Some kb ->
           decorator_decision v key request <> Accepted) ->
        decorated v f1 tok request = decorated v f2 tok request).
Proof.
  split.
  - intros f key kb -> K. rewrite (decorated_run _ _ _ _ _ K).
    unfold decorator_decision.
    destruct (x_twilio_signature request) as [[|c sig]|]; try discriminate.
    cbv zeta. destruct (v key _ (form request) (c :: sig)); [|discriminate].
    intros _. split; [reflexivity|]. eexists _, _. reflexivity.
  - intros f1 f2 N. destruct tok as [key|]; [|reflexivity].
    destruct (UTF8.encode key) as [kb|] eqn:K.
    + specialize (N key kb eq_refl K). rewrite !(decorated_run _ _ _ _ _ K).
      unfold decorator_decision in N.
      destruct (x_twilio_signature request) as [[|c sig]|]; try reflexivity.
      cbv zeta. destruct (v key _ (form request) (c :: sig));
        [congruence | reflexivity].
    + rewrite !(decorated_not_encodable _ _ _ _ K). reflexivity.
Qed.

Lemma decorated_runs_view_untouched_witness :
  answer (decorated accept_all ok_view (Some secret) hook_http) = answer ok_view
  /\ (forall f1 f2,
        decorated accept_all f1 (Some secret) unsigned
        = decorated accept_all f2 (Some secret) unsigned)
  /\ (forall f1 f2,
        decorated accept_all f1 None hook_http
        = decorated accept_all f2 None hook_http).
Proof.
  destruct (decorated_runs_view_untouched accept_all (Some secret) hook_http)
    as (A & _).
  destruct (decorated_runs_view_untouched accept_all (Some secret) unsigned)
    as (_ & B).
  destruct (decorated_runs_view_untouched accept_all None hook_http)
    as (_ & C).
  split; [|split].
  - apply (A ok_view secret (lit "secret")); reflexivity.
  - intros f1 f2. apply (B f1 f2). intros key kb _ _. discriminate.
  - intros f1 f2. apply (C f1 f2). intros key kb E. discriminate E.
Defined.

(** X10: all the inline gate ever prints is the line with the header it
    received: neither the digest nor a computed signature reaches the log,
    whatever the token and the request. *)
Theorem only_the_header_is_printed
  (tok : option str) (request : Request) (p : printed) :
  In (Print p) (trace (twiml tok request)) ->
  exists sig,
    x_twilio_signature request = Some sig
    /\ p = PStr (lit "X-Twilio-Signature: " ++ sig).
Proof.
  destruct (x_twilio_signature request) as [sig|] eqn:H.
  - intros I. exists sig. split; [reflexivity|].
    destruct (form request) as [|kv rest] eqn:F.
    + rewrite (twiml_no_body _ _ _ H F) in I.
      destruct I as [[= <-] | []]. reflexivity.
    + rewrite (twiml_signs _ _ sig H) in I by congruence.
      destruct I as [[= <-] | I]; [reflexivity|]. exfalso.
      cbn [trace fst] in I. destruct tok as [key|]; [|destruct I].
      destruct (UTF8.encode key) as [kb|] eqn:K.
      * destruct (UTF8.encode (canonical_string request)) as [mb|] eqn:E.
        -- rewrite (sign_encodable _ _ _ _ K E) in I.
           destruct I as [I | []]. discriminate I.
        -- rewrite (sign_domain_not_encodable _ _ _ K E) in I. destruct I.
      * rewrite (sign_key_not_encodable _ _ K) in I. destruct I.
  - rewrite (twiml_no_header _ _ H). intros [].
Qed.

Lemma only_the_header_is_printed_witness :
  exists sig,
    x_twilio_signature hook_http = Some sig
    /\ PStr (lit "X-Twilio-Signature: bVC8YmH56Aj38JxyqIXPLvKpZQo=")
       = PStr (lit "X-Twilio-Signature: " ++ sig).
Proof.
  apply (only_the_header_is_printed (Some secret) hook_http).
  vm_compute. left. reflexivity.
Defined.

(** X11: the inline gate answers 418 or 400 or lets a TypeError (no token),
    a UnicodeEncodeError (a text without UTF-8 form) or an AttributeError
    escape; it never answers 403 or its success document, and nothing of
    the token, of the canonical string or of a signature is in a
    response. *)
Theorem twiml_answers (tok : option str) (request : Request) :
  In (answer (twiml tok request))
     [inl no_signature_response; inl no_body_response;
      inr TypeError; inr UnicodeEncodeError; inr AttributeError].
Proof.
  destruct (x_twilio_signature request) as [sig|] eqn:H.
  - destruct (form request) as [|kv rest] eqn:F.
    + rewrite (twiml_no_body _ _ _ H F). right. left. reflexivity.
    + rewrite (twiml_signed _ _ sig H) by congruence.
      unfold answer. cbn [snd]. destruct tok as [key|]; [|cbn; tauto].
      destruct (UTF8.encode key); [|cbn; tauto].
      destruct (UTF8.encode (canonical_string request)); cbn; tauto.
  - rewrite (twiml_no_header _ _ H). left. reflexivity.
Qed.

(** X12: the [/decorator_test] route first builds the library validator, so
    with the token unset it raises AttributeError and with a token without
    UTF-8 form UnicodeEncodeError, for every request, the ones without the
    header included; otherwise it answers 500 when the header is missing or
    empty, 403 when the validator refuses, and else its document with
    status 200, a request without any form field being served like any
    other. *)
Theorem decorator_test_answers
  (v : str -> str -> MultiDict -> str -> bool) (say : str -> str)
  (tok : option str) (request : Request) :
  answer (decorator_test v say tok request)
  = match tok with
    | None => inr AttributeError
    | Some key =>
        match UTF8.encode key with
        | None => inr UnicodeEncodeError
        | Some _ =>
            inl match decorator_decision v key request with
                | RejectedNoSignatureHeader =>
                    tuple_response (lit "No signature") 500
                | RejectedMismatch =>
                    tuple_response (lit "Incorrect signature") 403
                | _ => Response (say (lit "Signature is validated!"))
                         (lit "application/xml")
                end
        end
    end.
Proof.
  unfold decorator_test. destruct tok as [key|]; [|reflexivity].
  destruct (UTF8.encode key) as [kb|] eqn:K.
  - rewrite (decorated_run _ _ _ _ _ K). unfold decorator_decision.
    destruct (x_twilio_signature request) as [[|c sig]|]; try reflexivity.
    cbv zeta. destruct (v key _ (form request) (c :: sig)); reflexivity.
  - rewrite (decorated_not_encodable _ _ _ _ K). reflexivity.
Qed.

(** * The [/weather] route *)

Section WeatherProperties.

Import Weather.
Local Open Scope weather_scope.

Variable STATES : list State.
Variable lookup : str -> option State.
Variable requests_get : str -> option reply.
Variable repr : json -> str.
Variable WEATHER_API_KEY : option str.

#[local] Abbreviation view := (weather STATES lookup requests_get repr WEATHER_API_KEY).
#[local] Abbreviation scan_ := (scan lookup requests_get repr WEATHER_API_KEY).
#[local] Abbreviation caller_ := (caller STATES lookup).
#[local] Abbreviation geo_url_ := (geo_url WEATHER_API_KEY).
#[local] Abbreviation weather_url_ := (weather_url repr WEATHER_API_KEY).
#[local] Abbreviation get_ := (get requests_get).
#[local] Abbreviation stops := (stops_not_ok requests_get).

Lemma wbind_val {A B} (t : list event) (a : A) (k : A -> W B) :
  bind (t, Val a) k = (t ++ trace (k a), snd (k a)).
Proof. unfold bind. destruct (k a); reflexivity. Qed.

Lemma wbind_ret {A B} (a : A) (k : A -> W B) : bind (ret a) k = k a.
Proof. unfold ret. rewrite wbind_val. destruct (k a); reflexivity. Qed.

Lemma wbind_emit {B} (e : event) (k : unit -> W B) :
  bind (emit e) k = tell [e] (k tt).
Proof. unfold emit. rewrite wbind_val. reflexivity. Qed.

Lemma get_found {B} (u : str) (r : reply) (k : reply -> W B) :
  requests_get u = Some r -> bind (get_ u) k = tell [Get u] (k r).
Proof.
  intros H. unfold get. rewrite wbind_emit, H. unfold tell.
  cbn [trace fst snd ret app]. rewrite wbind_val. reflexivity.
Qed.

Lemma get_failed {B} (u : str) (k : reply -> W B) :
  requests_get u = None -> bind (get_ u) k = ([Get u], Raise RequestException).
Proof. intros H. unfold get. rewrite wbind_emit, H. reflexivity. Qed.

Lemma tell_tell {A} (es es' : list event) (m : W A) :
  tell es (tell es' m) = tell (es ++ es') m.
Proof. unfold tell. cbn [trace fst snd]. rewrite app_assoc. reflexivity. Qed.

Lemma bind_tell {A B} (es : list event) (m : W A) (k : A -> W B) :
  bind (tell es m) k = tell es (bind m k).
Proof.
  destruct m as [t [a | r | e]]; unfold tell, bind; cbn [trace fst snd];
    try reflexivity.
  destruct (k a) as [t' r']. cbn [trace fst snd]. rewrite app_assoc. reflexivity.
Qed.

Lemma answer_tell (es : list event) (m : W response) :
  answer (tell es m) = answer m.
Proof. reflexivity. Qed.

Lemma gets_tell {A} (es : list event) (m : W A) :
  gets (tell es m) = filter is_Get es ++ gets m.
Proof. unfold gets, tell. cbn [trace fst]. apply filter_app. Qed.

(** The caller's three fields, when all are sent. *)
Lemma caller_present (drawn : nat) (request : Request) (city state country : str) :
  getitem (form request) (lit "CallerCity") = Some city ->
  getitem (form request) (lit "CallerState") = Some state ->
  getitem (form request) (lit "CallerCountry") = Some country ->
  caller_ drawn request = ([], Val (city, state, country)).
Proof.
  intros C S K. unfold caller, form_getitem. rewrite C, S, K. reflexivity.
Qed.

Lemma caller_missing (drawn : nat) (request : Request) (s st : State) :
  getitem (form request) (lit "CallerCity") = None
  \/ getitem (form request) (lit "CallerState") = None
  \/ getitem (form request) (lit "CallerCountry") = None ->
  nth_error STATES drawn = Some s -> lookup (name s) = Some st ->
  caller_ drawn request = ([], Val (capital st, name st, lit "US")).
Proof.
  intros H N L. unfold caller, form_getitem. rewrite N, wbind_ret, L.
  destruct (getitem (form request) (lit "CallerCity"));
    destruct (getitem (form request) (lit "CallerState"));
    destruct (getitem (form request) (lit "CallerCountry"));
    try reflexivity.
  destruct H as [H | [H | H]]; discriminate H.
Qed.

(** The view after the place of the caller is known. *)
Lemma view_run (drawn : nat) (request : Request) (city state country : str) :
  caller_ drawn request = ([], Val (city, state, country)) ->
  exists rest out,
    view drawn request
    = (Printed (repeat 45 55) :: Get (geo_url_ city state country) :: rest, out).
Proof.
  intros C. unfold weather, print. rewrite wbind_emit, C.
  change ([], Val (city, state, country)) with (ret (city, state, country)).
  rewrite wbind_ret.
  destruct (requests_get (geo_url_ city state country)) as [r|] eqn:G.
  - rewrite (get_found _ _ _ G). unfold tell. cbn [trace fst snd app].
    eexists _, _. reflexivity.
  - rewrite (get_failed _ _ G). unfold tell. cbn [trace fst snd app].
    eexists _, _. reflexivity.
Qed.

(** X13: when one of CallerCity, CallerState and CallerCountry is missing
    from the form, all three are replaced: with the drawn state in the list
    and known to the lookup, the geocoder is asked for the capital of that
    state, its name and US, and the fields that were sent are not used. *)
Theorem weather_defaults_replace_all
  (drawn : nat) (request : Request) (s st : State) :
  getitem (form request) (lit "CallerCity") = None
  \/ getitem (form request) (lit "CallerState") = None
  \/ getitem (form request) (lit "CallerCountry") = None ->
  nth_error STATES drawn = Some s -> lookup (name s) = Some st ->
  exists rest out,
    view drawn request
    = (Printed (repeat 45 55)
         :: Get (geo_url_ (capital st) (name st) (lit "US")) :: rest, out).
Proof.
  intros H N L. apply view_run. eapply caller_missing; eassumption.
Qed.

(** Entries in other states are passed over, and nothing is asked. *)
Lemma scan_skip (state : str) (s : State) (pre rest : list json) (g : option json) :
  lookup state = Some s -> Forall (other_state (name s)) pre ->
  scan_ state (pre ++ rest) g = scan_ state rest (after pre g).
Proof.
  intros L F. revert g. induction F as [|g' pre Hg _ IH]; intros g.
  - reflexivity.
  - cbn [app scan after fold_left]. fold (after pre (Some g')).
    destruct g' as [| | | | |members]; try contradiction.
    cbn [other_state] in Hg. unfold subscript at 1.
    destruct (member (lit "state") members) as [v|]; [|contradiction].
    rewrite wbind_ret. unfold lookup_name. rewrite L, wbind_ret, Hg.
    apply IH.
Qed.

Lemma after_other_state (wanted : str) (gs : list json) (g g' : json) :
  Forall (other_state wanted) gs -> after gs (Some g) = Some g' ->
  g' = g \/ other_state wanted g'.
Proof.
  intros F. revert g. induction F as [|x gs Hx _ IH]; intros g; cbn [after fold_left].
  - intros [= ->]. left. reflexivity.
  - fold (after gs (Some x)). intros E.
    destruct (IH _ E) as [-> | H]; right; assumption.
Qed.

(** The view once the geocoder has answered 200 with a list. *)
Lemma view_found (drawn : nat) (request : Request)
  (city state country : str) (geo : reply) (gs : list json) :
  caller_ drawn request = ([], Val (city, state, country)) ->
  requests_get (geo_url_ city state country) = Some geo ->
  status_code geo = 200 -> body_json geo = Some (JArr gs) ->
  view drawn request
  = tell [Printed (repeat 45 55); Get (geo_url_ city state country);
          PrintedAt (lit " - Geo Finder Status Code: " ++ str_of_int 200)]
      (found <- scan_ state gs None ;;
       let '(g, temp) := found in
       g <- local g ;;
       g_state <- subscript g (lit "state") ;;
       temp <- local temp ;;
       print (lit "Temp in " ++ city ++ lit ", " ++ state ++ lit ": "
              ++ format repr temp) ;;
       ret (Response (spoken repr city g_state temp) (lit "application/xml"))).
Proof.
  intros C G S J. unfold weather.
  unfold print at 1. rewrite wbind_emit, C.
  change ([], Val (city, state, country)) with (ret (city, state, country)).
  rewrite wbind_ret, (get_found _ _ _ G), S.
  unfold print_at at 1. rewrite wbind_emit. cbn [Z.eqb Pos.eqb negb].
  unfold json_. rewrite J, wbind_ret. cbn [iterate]. rewrite wbind_ret.
  rewrite !tell_tell. reflexivity.
Qed.

(** X14: when the geocoder answers 200 with a list in which no entry is in
    the caller's state (each entry has a state, another one), the empty list
    included, the view does not answer: it raises UnboundLocalError, having
    asked the geocoder and nothing else. *)
Theorem weather_without_match_raises
  (drawn : nat) (request : Request) (city state country : str)
  (geo : reply) (gs : list json) (s : State) :
  caller_ drawn request = ([], Val (city, state, country)) ->
  requests_get (geo_url_ city state country) = Some geo ->
  status_code geo = 200 -> body_json geo = Some (JArr gs) ->
  lookup state = Some s -> Forall (other_state (name s)) gs ->
  answer (view drawn request) = inr UnboundLocalError
  /\ gets (view drawn request) = [Get (geo_url_ city state country)].
Proof.
  intros C G S J L F. rewrite (view_found _ _ _ _ _ _ _ C G S J).
  rewrite answer_tell, gets_tell.
  pose proof (scan_skip state s gs [] None L F) as K.
  rewrite app_nil_r in K. rewrite K. cbn [scan]. rewrite wbind_ret.
  destruct (after gs None) as [g|] eqn:A.
  - assert (other_state (name s) g) as O.
    { destruct gs as [|g0 gs']; [discriminate A|].
      cbn [after fold_left] in A. fold (after gs' (Some g0)) in A.
      inversion_clear F as [|? ? H0 F'].
      destruct (after_other_state _ _ _ _ F' A) as [-> | H]; assumption. }
    cbn [local]. rewrite wbind_ret.
    destruct g as [| | | | |members]; try contradiction.
    cbn [other_state] in O. unfold subscript.
    destruct (member (lit "state") members) as [v|]; [|contradiction].
    rewrite wbind_ret. split; reflexivity.
  - split; reflexivity.
Qed.

(** X15: the first entry in the caller's state decides: the weather is asked
    for its coordinates only, and with a 200 reply the view speaks the city,
    the state of that entry and the temperature of that reply; the entries
    after it are not read. *)
Theorem weather_first_match_decides
  (drawn : nat) (request : Request) (city state country : str)
  (geo w : reply) (pre post : list json) (members : list (str * json))
  (s : State) (g_state lat lon temp : json)
  (w_members main_members : list (str * json)) :
  caller_ drawn request = ([], Val (city, state, country)) ->
  requests_get (geo_url_ city state country) = Some geo ->
  status_code geo = 200 ->
  body_json geo = Some (JArr (pre ++ JObj members :: post)) ->
  lookup state = Some s -> Forall (other_state (name s)) pre ->
  member (lit "state") members = Some g_state ->
  json_eq_str g_state (name s) = true ->
  member (lit "lat") members = Some lat ->
  member (lit "lon") members = Some lon ->
  requests_get (weather_url_ lat lon) = Some w ->
  status_code w = 200 -> body_json w = Some (JObj w_members) ->
  member (lit "main") w_members = Some (JObj main_members) ->
  member (lit "temp") main_members = Some temp ->
  answer (view drawn request)
  = inl (Response (spoken repr city g_state temp) (lit "application/xml"))
  /\ gets (view drawn request)
     = [Get (geo_url_ city state country); Get (weather_url_ lat lon)].
Proof.
  intros C G S J L F Ms E Mlat Mlon Gw Sw Jw Mm Mt.
  assert (view drawn request
          = tell [Printed (repeat 45 55); Get (geo_url_ city state country);
                  PrintedAt (lit " - Geo Finder Status Code: " ++ str_of_int 200);
                  Get (weather_url_ lat lon);
                  PrintedAt (lit " - Weather Status Code: " ++ str_of_int 200);
                  Printed (lit "Temp in " ++ city ++ lit ", " ++ state
                           ++ lit ": " ++ format repr temp)]
              (ret (Response (spoken repr city g_state temp)
                      (lit "application/xml")))) as V.
  { rewrite (view_found _ _ _ _ _ _ _ C G S J).
    rewrite (scan_skip state s pre _ None L F). cbn [scan].
    unfold subscript at 1. rewrite Ms, wbind_ret.
    unfold lookup_name. rewrite L, wbind_ret, E.
    unfold subscript at 1. rewrite Mlat, wbind_ret.
    unfold subscript at 1. rewrite Mlon, wbind_ret.
    rewrite (get_found _ _ _ Gw), Sw.
    unfold print_at at 1. rewrite wbind_emit. cbn [Z.eqb Pos.eqb negb].
    unfold json_. rewrite Jw, wbind_ret.
    unfold subscript at 1. rewrite Mm, wbind_ret.
    unfold subscript at 1. rewrite Mt, wbind_ret.
    rewrite tell_tell, bind_tell, wbind_ret. cbn [local]. rewrite wbind_ret.
    unfold subscript at 1. rewrite Ms, !wbind_ret.
    unfold print. rewrite wbind_emit, !tell_tell. reflexivity. }
  rewrite V. split; reflexivity.
Qed.

(** ** Requests sent and responses given, whatever the replies *)

Lemma gets_bind_le {A B} (a b n : nat) (m : W A) (k : A -> W B) :
  (a + b <= n)%nat -> (length (gets m) <= a)%nat ->
  (forall x, (length (gets (k x)) <= b)%nat) ->
  (length (gets (bind m k)) <= n)%nat.
Proof.
  intros N Hm Hk. destruct m as [t [x | r | e]]; unfold bind;
    unfold gets in *; cbn [trace fst] in *; try lia.
  specialize (Hk x). destruct (k x) as [t' r']. cbn [trace fst] in *.
  rewrite filter_app, length_app. lia.
Qed.

Lemma subscript_gets (j : json) (k : str) : gets (subscript j k) = [].
Proof.
  destruct j as [| | | | |members]; try reflexivity.
  cbn [subscript]. destruct (member k members); reflexivity.
Qed.

Lemma lookup_name_gets (state : str) : gets (lookup_name lookup state) = [].
Proof. unfold lookup_name. destruct (lookup state); reflexivity. Qed.

Lemma json_gets (r : reply) : gets (json_ r) = [].
Proof. unfold json_. destruct (body_json r); reflexivity. Qed.

Lemma local_gets {A} (x : option A) : gets (local x) = [].
Proof. destruct x; reflexivity. Qed.

Lemma iterate_gets (j : json) : gets (iterate j) = [].
Proof. destruct j; reflexivity. Qed.

Lemma caller_gets (drawn : nat) (request : Request) :
  gets (caller_ drawn request) = [].
Proof.
  unfold caller, form_getitem.
  destruct (getitem (form request) (lit "CallerCity"));
    destruct (getitem (form request) (lit "CallerState"));
    destruct (getitem (form request) (lit "CallerCountry"));
    try reflexivity;
    destruct (nth_error STATES drawn) as [st|]; try reflexivity;
    rewrite ?wbind_ret; cbn [try_except bind raise ret];
    destruct (lookup (name st)); reflexivity.
Qed.

Lemma get_gets (u : str) : (length (gets (get_ u)) <= 1)%nat.
Proof. unfold get. destruct (requests_get u); cbn; lia. Qed.

Ltac no_gets lem := rewrite lem; cbn [length]; lia.

(** After a request: the status is printed, then the run stops or goes on. *)
Lemma checked_gets {B} (n : nat) (s : str) (c : bool) (stop k : W B) :
  (length (gets stop) <= n)%nat -> (length (gets k) <= n)%nat ->
  (length (gets (print_at s ;; if c then stop else k)) <= n)%nat.
Proof.
  intros Hs Hk. apply (gets_bind_le 0 n); [lia | cbn; lia|].
  intros _. destruct c; assumption.
Qed.

Lemma scan_gets (state : str) (gs : list json) (g : option json) :
  (length (gets (scan_ state gs g)) <= 1)%nat.
Proof.
  revert g. induction gs as [|g' rest IH]; intros g; cbn [scan].
  - cbn. lia.
  - apply (gets_bind_le 0 1); [lia | no_gets subscript_gets|]. intros g_state.
    apply (gets_bind_le 0 1); [lia | no_gets lookup_name_gets|]. intros target.
    destruct (json_eq_str g_state target); [|apply IH].
    apply (gets_bind_le 0 1); [lia | no_gets subscript_gets|]. intros lat.
    apply (gets_bind_le 0 1); [lia | no_gets subscript_gets|]. intros lon.
    apply (gets_bind_le 1 0); [lia | apply get_gets|]. intros w.
    apply checked_gets; [cbn; lia|].
    apply (gets_bind_le 0 0); [lia | no_gets json_gets|]. intros w_data.
    apply (gets_bind_le 0 0); [lia | no_gets subscript_gets|]. intros main.
    apply (gets_bind_le 0 0); [lia | no_gets subscript_gets|]. intros temp.
    cbn. lia.
Qed.

(** X16: whatever the form, the drawn state and the replies, one call of the
    view sends at most two requests upstream. *)
Theorem weather_at_most_two_requests (drawn : nat) (request : Request) :
  (length (gets (view drawn request)) <= 2)%nat.
Proof.
  unfold weather.
  apply (gets_bind_le 0 2); [lia | cbn; lia|]. intros _.
  apply (gets_bind_le 0 2); [lia | no_gets caller_gets|].
  intros [[city state] country].
  apply (gets_bind_le 1 1); [lia | apply get_gets|]. intros geofinder.
  apply checked_gets; [cbn; lia|].
  apply (gets_bind_le 0 1); [lia | no_gets json_gets|]. intros geo_data.
  apply (gets_bind_le 0 1); [lia | no_gets iterate_gets|]. intros gs.
  apply (gets_bind_le 1 0); [lia | apply scan_gets|]. intros [g temp].
  apply (gets_bind_le 0 0); [lia | rewrite local_gets; cbn [length]; lia|]. intros g0.
  apply (gets_bind_le 0 0); [lia | no_gets subscript_gets|]. intros g_state.
  apply (gets_bind_le 0 0); [lia | rewrite local_gets; cbn [length]; lia|]. intros temp0.
  cbn. lia.
Qed.

Lemma snd_bind_val {A B} (m : W A) (k : A -> W B) (b : B) :
  snd (bind m k) = Val b -> exists a, snd m = Val a /\ snd (k a) = Val b.
Proof.
  destruct m as [t [a | r | e]]; unfold bind; cbn [snd]; try discriminate.
  intros H. exists a. split; [reflexivity|].
  destruct (k a) as [t' r']. exact H.
Qed.

Lemma stops_bind {A B} (m : W A) (k : A -> W B) :
  stops m -> (forall a, snd m = Val a -> stops (k a)) -> stops (bind m k).
Proof.
  intros Hm Hk r. destruct m as [t [a | r' | e]]; unfold bind.
  - specialize (Hk a eq_refl r). destruct (k a) as [t' r'].
    cbn [snd trace fst] in *. intros E.
    destruct (Hk E) as (u & rep & I & R). exists u, rep.
    split; [apply in_or_app; right; exact I | exact R].
  - cbn [snd]. intros [= ->]. destruct (Hm r eq_refl) as (u & rep & I & R).
    exists u, rep. split; [exact I | exact R].
  - discriminate.
Qed.

Lemma stops_tell {A} (es : list event) (m : W A) : stops m -> stops (tell es m).
Proof.
  intros H r E. destruct (H r E) as (u & rep & I & R). exists u, rep.
  split; [apply in_or_app; right; exact I | exact R].
Qed.

Lemma stops_never {A} (m : W A) : (forall r, snd m <> Return r) -> stops m.
Proof. intros H r E. destruct (H r E). Qed.

Lemma subscript_goes_on (j : json) (k : str) (r : response) :
  snd (subscript j k) <> Return r.
Proof.
  destruct j as [| | | | |members]; try discriminate.
  cbn [subscript]. destruct (member k members); discriminate.
Qed.

Lemma lookup_name_goes_on (state : str) (r : response) :
  snd (lookup_name lookup state) <> Return r.
Proof. unfold lookup_name. destruct (lookup state); discriminate. Qed.

Lemma json_goes_on (w : reply) (r : response) : snd (json_ w) <> Return r.
Proof. unfold json_. destruct (body_json w); discriminate. Qed.

Lemma local_goes_on {A} (x : option A) (r : response) : snd (local x) <> Return r.
Proof. destruct x; discriminate. Qed.

Lemma iterate_goes_on (j : json) (r : response) : snd (iterate j) <> Return r.
Proof. destruct j; discriminate. Qed.

Lemma caller_goes_on (drawn : nat) (request : Request) (r : response) :
  snd (caller_ drawn request) <> Return r.
Proof.
  unfold caller, form_getitem.
  destruct (getitem (form request) (lit "CallerCity"));
    destruct (getitem (form request) (lit "CallerState"));
    destruct (getitem (form request) (lit "CallerCountry"));
    try discriminate;
    destruct (nth_error STATES drawn) as [st|]; try discriminate;
    rewrite ?wbind_ret; cbn [try_except bind raise ret];
    destruct (lookup (name st)); discriminate.
Qed.

(** A request, the print of its status and the check of it. *)
Lemma stops_checked {B} (u what : str) (s : reply -> str) (k : reply -> W B) :
  (forall w, stops (k w)) ->
  stops (w <- get_ u ;;
         print_at (s w) ;;
         if negb (status_code w =? 200)%Z then not_ok what (status_code w)
         else k w).
Proof.
  intros Hk. destruct (requests_get u) as [w|] eqn:G.
  - rewrite (get_found _ _ _ G). unfold print_at. rewrite wbind_emit, tell_tell.
    destruct (status_code w =? 200)%Z eqn:S; cbn [negb].
    + apply stops_tell, Hk.
    + intros r E. exists u, w. apply Z.eqb_neq in S.
      split; [left; reflexivity|]. split; [exact G|]. split; [exact S|].
      cbn in E. injection E as <-. reflexivity.
  - rewrite (get_failed _ _ G). discriminate.
Qed.

Lemma scan_stops (state : str) (gs : list json) (g : option json) :
  stops (scan_ state gs g).
Proof.
  revert g. induction gs as [|g' rest IH]; intros g; cbn [scan].
  - discriminate.
  - apply stops_bind; [apply stops_never, subscript_goes_on|]. intros g_state _.
    apply stops_bind; [apply stops_never, lookup_name_goes_on|]. intros target _.
    destruct (json_eq_str g_state target); [|apply IH].
    apply stops_bind; [apply stops_never, subscript_goes_on|]. intros lat _.
    apply stops_bind; [apply stops_never, subscript_goes_on|]. intros lon _.
    apply (stops_checked _ _
             (fun w => lit " - Weather Status Code: " ++ str_of_int (status_code w))).
    intros w.
    apply stops_bind; [apply stops_never, json_goes_on|]. intros w_data _.
    apply stops_bind; [apply stops_never, subscript_goes_on|]. intros main _.
    apply stops_bind; [apply stops_never, subscript_goes_on|]. intros temp _.
    discriminate.
Qed.

Lemma view_stops (drawn : nat) (request : Request) : stops (view drawn request).
Proof.
  unfold weather.
  apply stops_bind; [discriminate|]. intros _ _.
  apply stops_bind; [apply stops_never, caller_goes_on|].
  intros [[city state] country] _.
  apply (stops_checked _ _
           (fun w => lit " - Geo Finder Status Code: " ++ str_of_int (status_code w))).
  intros geofinder.
  apply stops_bind; [apply stops_never, json_goes_on|]. intros geo_data _.
  apply stops_bind; [apply stops_never, iterate_goes_on|]. intros gs _.
  apply stops_bind; [apply scan_stops|]. intros [g temp] _.
  apply stops_bind; [apply stops_never, local_goes_on|]. intros g0 _.
  apply stops_bind; [apply stops_never, subscript_goes_on|]. intros g_state _.
  apply stops_bind; [apply stops_never, local_goes_on|]. intros temp0 _.
  apply stops_bind; discriminate.
Qed.

(** X17: the view answers in two ways only: with the spoken document, or
    with Not OK and the status, other than 200, of a reply that one of its
    own requests received; that status is passed on as it came. *)
Theorem weather_answers_two_ways
  (drawn : nat) (request : Request) (r : response) :
  answer (view drawn request) = inl r ->
  (exists city g_state temp,
     r = Response (spoken repr city g_state temp) (lit "application/xml"))
  \/ (exists u rep,
        In (Get u) (trace (view drawn request))
        /\ requests_get u = Some rep /\ status_code rep <> 200
        /\ r = tuple_response (lit "Not OK") (status_code rep)).
Proof.
  unfold answer. destruct (snd (view drawn request)) as [a | r' | e] eqn:E;
    [| |discriminate]; intros [= ->].
  - left. unfold weather in E.
    apply snd_bind_val in E as (_ & _ & E).
    apply snd_bind_val in E as ([[city state] country] & _ & E).
    apply snd_bind_val in E as (geofinder & _ & E).
    apply snd_bind_val in E as (_ & _ & E).
    destruct (negb (status_code geofinder =? 200)); [discriminate E|].
    apply snd_bind_val in E as (geo_data & _ & E).
    apply snd_bind_val in E as (gs & _ & E).
    apply snd_bind_val in E as ([g temp] & _ & E).
    apply snd_bind_val in E as (g0 & _ & E).
    apply snd_bind_val in E as (g_state & _ & E).
    apply snd_bind_val in E as (temp0 & _ & E).
    apply snd_bind_val in E as (_ & _ & E).
    injection E as <-. exists city, g_state, temp0. reflexivity.
  - right. exact (view_stops drawn request r E).
Qed.

(** The view when the geocoder answers with another status than 200. *)
Lemma view_geo_not_ok (drawn : nat) (request : Request)
  (city state country : str) (geo : reply) :
  caller_ drawn request = ([], Val (city, state, country)) ->
  requests_get (geo_url_ city state country) = Some geo ->
  status_code geo <> 200 ->
  view drawn request
  = tell [Printed (repeat 45 55); Get (geo_url_ city state country);
          PrintedAt (lit " - Geo Finder Status Code: "
                     ++ str_of_int (status_code geo));
          PrintedAt (lit " - ERROR!!!!! :-(");
          PrintedAt (lit " - Geo Finder Status Code: "
                     ++ str_of_int (status_code geo))]
      (return_ (tuple_response (lit "Not OK") (status_code geo))).
Proof.
  intros C G S. unfold weather.
  unfold print at 1. rewrite wbind_emit, C.
  change ([], Val (city, state, country)) with (ret (city, state, country)).
  rewrite wbind_ret, (get_found _ _ _ G).
  unfold print_at at 1. rewrite wbind_emit.
  apply Z.eqb_neq in S. rewrite S. cbn [negb].
  unfold not_ok, print_at. rewrite !wbind_emit, !tell_tell. reflexivity.
Qed.

(** X18: when the geocoder answers with another status than 200, the view
    answers Not OK with that status, whatever the body of the reply, and
    does not ask for the weather. *)
Theorem weather_geocoder_status_passed_on
  (drawn : nat) (request : Request) (city state country : str) (geo : reply) :
  caller_ drawn request = ([], Val (city, state, country)) ->
  requests_get (geo_url_ city state country) = Some geo ->
  status_code geo <> 200 ->
  answer (view drawn request)
  = inl (tuple_response (lit "Not OK") (status_code geo))
  /\ gets (view drawn request) = [Get (geo_url_ city state country)].
Proof.
  intros C G S. rewrite (view_geo_not_ok _ _ _ _ _ _ C G S).
  split; reflexivity.
Qed.

(** X19: when the weather service answers the request for the first entry
    in the caller's state with another status than 200, the view answers
    Not OK with that status; it does not go on to a later entry. *)
Theorem weather_status_passed_on
  (drawn : nat) (request : Request) (city state country : str)
  (geo w : reply) (pre post : list json) (members : list (str * json))
  (s : State) (g_state lat lon : json) :
  caller_ drawn request = ([], Val (city, state, country)) ->
  requests_get (geo_url_ city state country) = Some geo ->
  status_code geo = 200 ->
  body_json geo = Some (JArr (pre ++ JObj members :: post)) ->
  lookup state = Some s -> Forall (other_state (name s)) pre ->
  member (lit "state") members = Some g_state ->
  json_eq_str g_state (name s) = true ->
  member (lit "lat") members = Some lat ->
  member (lit "lon") members = Some lon ->
  requests_get (weather_url_ lat lon) = Some w ->
  status_code w <> 200 ->
  answer (view drawn request)
  = inl (tuple_response (lit "Not OK") (status_code w))
  /\ gets (view drawn request)
     = [Get (geo_url_ city state country); Get (weather_url_ lat lon)].
Proof.
  intros C G S J L F Ms E Mlat Mlon Gw Sw.
  assert (view drawn request
          = tell [Printed (repeat 45 55); Get (geo_url_ city state country);
                  PrintedAt (lit " - Geo Finder Status Code: " ++ str_of_int 200);
                  Get (weather_url_ lat lon);
                  PrintedAt (lit " - Weather Status Code: "
                             ++ str_of_int (status_code w));
                  PrintedAt (lit " - ERROR!!!!! :-(");
                  PrintedAt (lit " - Weather Status Code: "
                             ++ str_of_int (status_code w))]
              (return_ (tuple_response (lit "Not OK") (status_code w)))) as V.
  { rewrite (view_found _ _ _ _ _ _ _ C G S J).
    rewrite (scan_skip state s pre _ None L F). cbn [scan].
    unfold subscript at 1. rewrite Ms, wbind_ret.
    unfold lookup_name. rewrite L, wbind_ret, E.
    unfold subscript at 1. rewrite Mlat, wbind_ret.
    unfold subscript at 1. rewrite Mlon, wbind_ret.
    rewrite (get_found _ _ _ Gw).
    unfold print_at at 1. rewrite wbind_emit.
    apply Z.eqb_neq in Sw. rewrite Sw. cbn [negb].
    unfold not_ok, print_at. rewrite !wbind_emit, !tell_tell, bind_tell.
    rewrite tell_tell. reflexivity. }
  rewrite V. split; reflexivity.
Qed.

End WeatherProperties.

Lemma weather_defaults_replace_all_witness :
  exists rest out,
    sample_weather 0 caller_city_only
    = (Weather.Printed (repeat 45 55)
         :: Weather.Get
              (Weather.geo_url (Some (lit "K")) (lit "Sacramento")
                 (lit "California") (lit "US"))
         :: rest, out).
Proof.
  apply (weather_defaults_replace_all [california] us_lookup upstream plain_repr
           (Some (lit "K")) 0 caller_city_only california california).
  - right. left. reflexivity.
  - reflexivity.
  - reflexivity.
Defined.

Lemma weather_without_match_raises_witness :
  Weather.answer (sample_weather 0 caller_city_only)
  = inr Weather.UnboundLocalError
  /\ Weather.gets (sample_weather 0 caller_city_only)
     = [Weather.Get
          (Weather.geo_url (Some (lit "K")) (lit "Sacramento")
             (lit "California") (lit "US"))].
Proof.
  apply (weather_without_match_raises [california] us_lookup upstream plain_repr
           (Some (lit "K")) 0 caller_city_only
           (lit "Sacramento") (lit "California") (lit "US")
           {| Weather.status_code := 200;
              Weather.body_json := Some (Weather.JArr [texas_entry]) |}
           [texas_entry] california).
  - reflexivity.
  - reflexivity.
  - reflexivity.
  - reflexivity.
  - reflexivity.
  - constructor; [reflexivity | constructor].
Defined.

Lemma weather_first_match_decides_witness :
  Weather.answer (sample_weather 0 caller_la)
  = inl (Response
           (Weather.spoken plain_repr (lit "LA")
              (Weather.JStr (lit "California")) (Weather.JNum (lit "71.3")))
           (lit "application/xml"))
  /\ Weather.gets (sample_weather 0 caller_la)
     = [Weather.Get
          (Weather.geo_url (Some (lit "K")) (lit "LA") (lit "CA") (lit "US"));
        Weather.Get
          (Weather.weather_url plain_repr (Some (lit "K"))
             (Weather.JNum (lit "34.05")) (Weather.JNum (lit "-118.24")))].
Proof.
  apply (weather_first_match_decides [california] us_lookup upstream plain_repr
           (Some (lit "K")) 0 caller_la (lit "LA") (lit "CA") (lit "US")
           {| Weather.status_code := 200;
              Weather.body_json :=
                Some (Weather.JArr
                        ([texas_entry] ++ Weather.JObj california_members :: [])) |}
           {| Weather.status_code := 200;
              Weather.body_json := Some (Weather.JObj weather_members) |}
           [texas_entry] [] california_members california
           (Weather.JStr (lit "California"))
           (Weather.JNum (lit "34.05")) (Weather.JNum (lit "-118.24"))
           (Weather.JNum (lit "71.3")) weather_members main_members).
  - reflexivity.
  - reflexivity.
  - reflexivity.
  - reflexivity.
  - reflexivity.
  - constructor; [reflexivity | constructor].
  - reflexivity.
  - reflexivity.
  - reflexivity.
  - reflexivity.
  - reflexivity.
  - reflexivity.
  - reflexivity.
  - reflexivity.
  - reflexivity.
Defined.

Lemma weather_answers_two_ways_witness :
  (exists city g_state temp,
     tuple_response (lit "Not OK") 404
     = Response (Weather.spoken plain_repr city g_state temp)
         (lit "application/xml"))
  \/ (exists u rep,
        In (Weather.Get u) (Weather.trace (sample_weather 0 caller_nowhere))
        /\ upstream u = Some rep /\ Weather.status_code rep <> 200
        /\ tuple_response (lit "Not OK") 404
           = tuple_response (lit "Not OK") (Weather.status_code rep)).
Proof.
  apply (weather_answers_two_ways [california] us_lookup upstream plain_repr
           (Some (lit "K")) 0 caller_nowhere (tuple_response (lit "Not OK") 404)).
  reflexivity.
Defined.

Lemma weather_geocoder_status_passed_on_witness :
  Weather.answer (sample_weather 0 caller_nowhere)
  = inl (tuple_response (lit "Not OK") 404)
  /\ Weather.gets (sample_weather 0 caller_nowhere)
     = [Weather.Get
          (Weather.geo_url (Some (lit "K")) (lit "Nowhere") (lit "CA")
             (lit "US"))].
Proof.
  apply (weather_geocoder_status_passed_on [california] us_lookup upstream
           plain_repr (Some (lit "K")) 0 caller_nowhere
           (lit "Nowhere") (lit "CA") (lit "US")
           {| Weather.status_code := 404; Weather.body_json := None |}).
  - reflexivity.
  - reflexivity.
  - discriminate.
Defined.

Lemma weather_status_passed_on_witness :
  Weather.answer (sample_weather 0 caller_sf)
  = inl (tuple_response (lit "Not OK") 404)
  /\ Weather.gets (sample_weather 0 caller_sf)
     = [Weather.Get
          (Weather.geo_url (Some (lit "K")) (lit "SF") (lit "CA") (lit "US"));
        Weather.Get
          (Weather.weather_url plain_repr (Some (lit "K"))
             (Weather.JNum (lit "37.77")) (Weather.JNum (lit "-122.42")))].
Proof.
  apply (weather_status_passed_on [california] us_lookup upstream plain_repr
           (Some (lit "K")) 0 caller_sf (lit "SF") (lit "CA") (lit "US")
           {| Weather.status_code := 200;
              Weather.body_json :=
                Some (Weather.JArr
                        ([] ++ Weather.JObj bay_members :: [texas_entry])) |}
           {| Weather.status_code := 404; Weather.body_json := None |}
           [] [texas_entry] bay_members california
           (Weather.JStr (lit "California"))
           (Weather.JNum (lit "37.77")) (Weather.JNum (lit "-122.42"))).
  - reflexivity.
  - reflexivity.
  - reflexivity.
  - reflexivity.
  - reflexivity.
  - constructor.
  - reflexivity.
  - reflexivity.
  - reflexivity.
  - reflexivity.
  - reflexivity.
  - discriminate.
Defined.
